(** * PyStegano: hiding an image in the low bits of another image

    A shallow embedding of [main.py].  Channel values are Python integers
    (unbounded), modelled as [Z]; the shifts, masks and the modulo of the
    source are [Z.shiftl], [Z.shiftr], [Z.land] and [Z.modulo] (Python's [%]
    with a positive divisor is the floor modulo, as [Z.modulo] is).
    Coordinates and sizes are naturals.  The grid transforms, which can only
    raise [IndexError], run in the [option] monad ([None] is the exception);
    [main] runs in a monad of its own that threads the file system and the
    two output streams and stops at [sys.exit] or at an exception. *)

From Stdlib Require Import Ascii String.
From stdpp Require Import base option list numbers strings gmap.

(** ** Bit manipulation (main.py, lines 15-42) *)

(** [range(n)] as the list of Python integers it yields. *)
Definition range (n : nat) : list Z := Z.of_nat <$> seq 0 n.

(** [reversed([(value & (0b11 << (2 * i))) >> (2 * i) for i in range(4)])].
    The source returns a one-shot iterator; its only consumer iterates it
    once, so it is modelled by the list of the values it yields. *)
Definition get_2bit_groups (value : Z) : list Z :=
  rev ((λ i, Z.shiftr (Z.land value (Z.shiftl 3 (2 * i))) (2 * i))%Z <$> range 4).

(** [value >> 2 << 2] *)
Definition truncate_rightmost_2bits (value : Z) : Z :=
  Z.shiftl (Z.shiftr value 2) 2.

Definition merge_pixel_value (camul_value secret_value : Z) : list Z :=
  let values := get_2bit_groups secret_value in
  let truncated := truncate_rightmost_2bits camul_value in
  (λ value, truncated + value)%Z <$> values.

(** [values[0]] raises on an empty list; the loop runs over [values[1:]]. *)
Definition extract_pixel_value (camul_values : list Z) : option Z :=
  let values := (λ cv, cv `mod` Z.shiftl 1 2)%Z <$> camul_values in
  secret_value ← values !! 0%nat;
  Some (fold_left (λ secret_value value, Z.shiftl secret_value 2 + value)%Z
                  (drop 1 values) secret_value).

(** A channel value as an image holds it. *)
Definition uint8 (v : Z) : Prop := (0 ≤ v ≤ 255)%Z.

(** ** Pixel grids: the part of Pillow's [Image] the program uses

    An RGB image holds three unsigned 8-bit bands per pixel in a row-major
    buffer.  [getpixel] and [putpixel] raise [IndexError] outside the image;
    [putpixel] stores each band as an unsigned byte (out-of-range integers are
    clipped); [Image.new] gives an all-black image. *)

Record pixel := RGB { red : Z; green : Z; blue : Z }.

Record Image := mkImage { size : nat * nat; data : list pixel }.

Definition CLIP8 (v : Z) : Z := Z.max 0 (Z.min 255 v).

Definition store_pixel (value : pixel) : pixel :=
  RGB (CLIP8 (red value)) (CLIP8 (green value)) (CLIP8 (blue value)).

Definition Image_new (size : nat * nat) : Image :=
  mkImage size (replicate (size.1 * size.2) (RGB 0 0 0)).

Definition offset (im : Image) (xy : nat * nat) : nat :=
  xy.2 * (size im).1 + xy.1.

Definition in_image (im : Image) (xy : nat * nat) : Prop :=
  xy.1 < (size im).1 ∧ xy.2 < (size im).2.

Definition getpixel (im : Image) (xy : nat * nat) : option pixel :=
  if decide (in_image im xy) then data im !! offset im xy else None.

Definition putpixel (im : Image) (xy : nat * nat) (value : pixel) : option Image :=
  if decide (in_image im xy)
  then Some (mkImage (size im) (<[offset im xy := store_pixel value]> (data im)))
  else None.

(** An image as Pillow hands it out: a full buffer of bytes. *)
Definition uint8_pixel (p : pixel) : Prop :=
  uint8 (red p) ∧ uint8 (green p) ∧ uint8 (blue p).

Definition wf_image (im : Image) : Prop :=
  length (data im) = (size im).1 * (size im).2 ∧ Forall uint8_pixel (data im).

(** ** The two grid transforms (main.py, lines 45-94) *)

(** [for i in l: s = body(i, s)], stopping at the first exception. *)
Fixpoint for_each {St : Type} (l : list nat) (body : nat → St → option St)
    (s : St) : option St :=
  match l with
  | [] => Some s
  | i :: l' => s' ← body i s; for_each l' body s'
  end.

(** [(red_values[k], green_values[k], blue_values[k])] *)
Definition triple_at (red_values green_values blue_values : list Z) (k : nat)
  : option pixel :=
  r ← red_values !! k; g ← green_values !! k; b ← blue_values !! k;
  Some (RGB r g b).

(** Body of the inner loop of [hide_image] (lines 58-68). *)
Definition hide_block (camul_data secret_data : Image) (i j : nat)
    (data : Image) : option Image :=
  p ← getpixel camul_data (i, j);
  q ← getpixel secret_data (i, j);
  let red_values := merge_pixel_value (red p) (red q) in
  let green_values := merge_pixel_value (green p) (green q) in
  let blue_values := merge_pixel_value (blue p) (blue q) in
  v0 ← triple_at red_values green_values blue_values 0;
  data ← putpixel data (2 * i, 2 * j) v0;
  v1 ← triple_at red_values green_values blue_values 1;
  data ← putpixel data (2 * i + 1, 2 * j) v1;
  v2 ← triple_at red_values green_values blue_values 2;
  data ← putpixel data (2 * i, 2 * j + 1) v2;
  v3 ← triple_at red_values green_values blue_values 3;
  putpixel data (2 * i + 1, 2 * j + 1) v3.

(** [hide_image] on the two opened images. *)
Definition hide_image (camul_data secret_data : Image) : option Image :=
  let '(cxs, cys) := size camul_data in
  let '(sxs, sys) := size secret_data in
  let data_xs := Nat.min cxs sxs in
  let data_ys := Nat.min cys sys in
  let data := Image_new (2 * data_xs, 2 * data_ys) in
  for_each (seq 0 data_xs) (λ i data,
    for_each (seq 0 data_ys) (λ j data,
      hide_block camul_data secret_data i j data) data) data.

(** Body of the inner loop of [extract_image] (lines 83-92). *)
Definition extract_block (camul_data : Image) (i j : nat) (data : Image)
  : option Image :=
  p1 ← getpixel camul_data (2 * i, 2 * j);
  p2 ← getpixel camul_data (2 * i + 1, 2 * j);
  p3 ← getpixel camul_data (2 * i, 2 * j + 1);
  p4 ← getpixel camul_data (2 * i + 1, 2 * j + 1);
  q_red ← extract_pixel_value [red p1; red p2; red p3; red p4];
  q_green ← extract_pixel_value [green p1; green p2; green p3; green p4];
  q_blue ← extract_pixel_value [blue p1; blue p2; blue p3; blue p4];
  putpixel data (i, j) (RGB q_red q_green q_blue).

(** [extract_image] on the opened image. *)
Definition extract_image (camul_data : Image) : option Image :=
  let '(cxs, cys) := size camul_data in
  let data_xs := cxs / 2 in
  let data_ys := cys / 2 in
  let data := Image_new (data_xs, data_ys) in
  for_each (seq 0 data_xs) (λ i data,
    for_each (seq 0 data_ys) (λ j data,
      extract_block camul_data i j data) data) data.

(** ** Specification vocabulary *)

(** The tuple of group [k] for the carrier pixel [p] and the secret pixel
    [q]: the [k]-th merged value of each band. *)
Definition merged_pixel (p q : pixel) (k : nat) : option pixel :=
  triple_at (merge_pixel_value (red p) (red q))
            (merge_pixel_value (green p) (green q))
            (merge_pixel_value (blue p) (blue q)) k.

(** The 2x2 block of [data] at the data coordinate [(i, j)] holds the four
    merged tuples of the pixels of [camul_data] and [secret_data] there:
    top-left group 0, top-right group 1, bottom-left group 2, bottom-right
    group 3. *)
Definition block_written (camul_data secret_data data : Image) (i j : nat)
  : Prop :=
  ∃ p q v0 v1 v2 v3,
    getpixel camul_data (i, j) = Some p ∧
    getpixel secret_data (i, j) = Some q ∧
    merged_pixel p q 0 = Some v0 ∧ merged_pixel p q 1 = Some v1 ∧
    merged_pixel p q 2 = Some v2 ∧ merged_pixel p q 3 = Some v3 ∧
    getpixel data (2 * i, 2 * j) = Some v0 ∧
    getpixel data (2 * i + 1, 2 * j) = Some v1 ∧
    getpixel data (2 * i, 2 * j + 1) = Some v2 ∧
    getpixel data (2 * i + 1, 2 * j + 1) = Some v3.

(** The pixel of [data] at [(i, j)] is what the extraction of the 2x2 block
    of [camul_data] at [(i, j)] gives, read top-left, top-right, bottom-left,
    bottom-right. *)
Definition block_read (camul_data data : Image) (i j : nat) : Prop :=
  ∃ p1 p2 p3 p4 q_red q_green q_blue,
    getpixel camul_data (2 * i, 2 * j) = Some p1 ∧
    getpixel camul_data (2 * i + 1, 2 * j) = Some p2 ∧
    getpixel camul_data (2 * i, 2 * j + 1) = Some p3 ∧
    getpixel camul_data (2 * i + 1, 2 * j + 1) = Some p4 ∧
    extract_pixel_value [red p1; red p2; red p3; red p4] = Some q_red ∧
    extract_pixel_value [green p1; green p2; green p3; green p4] = Some q_green ∧
    extract_pixel_value [blue p1; blue p2; blue p3; blue p4] = Some q_blue ∧
    getpixel data (i, j) = Some (RGB q_red q_green q_blue).

(** ** Sample images *)

(** The pixel pair of the worked example: carrier (200,10,5), secret
    (77,250,1), as images of one pixel. *)
Definition sample_camul : Image := mkImage (1, 1) [RGB 200 10 5].
Definition sample_secret : Image := mkImage (1, 1) [RGB 77 250 1].

(** A second carrier whose bytes have the same two low bits. *)
Definition sample_camul' : Image := mkImage (1, 1) [RGB 12 254 129].

(** A carrier of two columns, wider than [sample_secret]. *)
Definition wide_camul : Image := mkImage (2, 1) [RGB 200 10 5; RGB 9 8 7].

(** A 2x2 image to decode. *)
Definition sample_hidden : Image :=
  mkImage (2, 2) [RGB 201 11 4; RGB 200 11 4; RGB 203 10 4; RGB 201 10 5].

(** ** The command line (main.py, lines 97-141)

    The collaborators of [main]: a file system, the two output streams,
    [os.path] and Pillow's [Image.open] and [Image.save]. *)

Inductive node :=
  | Directory
  | RegularFile (content : option Image).
    (* [Some im]: a raster file holding the RGB image [im] *)

Record World := mkWorld {
  files : gmap string node;
  stdout : list string;  (* the lines printed *)
  stderr : string
}.

Inductive exception := TypeError | IndexError | ValueError | OSError.

(** How a run stops early. *)
Inductive stop :=
  | SystemExit (status : Z)
  | Raised (e : exception).

Definition Run (A : Type) : Type := World → (stop + A) * World.

#[global] Instance Run_ret : MRet Run := λ A (a : A) w, (inr a, w).

#[global] Instance Run_bind : MBind Run := λ A B (f : A → Run B) (m : Run A) w,
  match m w with
  | (inl e, w') => (inl e, w')
  | (inr a, w') => f a w'
  end.

Definition raise {A : Type} (e : exception) : Run A := λ w, (inl (Raised e), w).

Definition sys_exit {A : Type} (status : Z) : Run A :=
  λ w, (inl (SystemExit status), w).

Definition stderr_write (s : string) : Run () :=
  λ w, (inr (), mkWorld (files w) (stdout w) (stderr w +:+ s)).

Definition print (s : string) : Run () :=
  λ w, (inr (), mkWorld (files w) (stdout w ++ [s]) (stderr w)).

(** [if c: body] *)
Definition when (c : bool) (body : Run ()) : Run () :=
  if c then body else mret ().

Definition os_path_exists (path : string) : Run bool :=
  λ w, (inr (bool_decide (is_Some (files w !! path))), w).

Definition os_path_isfile (path : string) : Run bool :=
  λ w, (inr (match files w !! path with
             | Some (RegularFile _) => true
             | _ => false
             end), w).

(** [str.rfind] for one character: the last index, or -1. *)
Definition rfind (p : list ascii) (c : ascii) : Z :=
  (fix go (l : list ascii) (i acc : Z) : Z :=
     match l with
     | [] => acc
     | a :: l' => go l' (i + 1)%Z (if Ascii.eqb a c then i else acc)
     end) p 0%Z (-1)%Z.

(** [os.path.splitext] (posix): the extension starts at the last dot of the
    last path component, unless that component has only dots before it. *)
Definition splitext (p : string) : string * string :=
  let l := list_ascii_of_string p in
  let sepIndex := rfind l "/"%char in
  let dotIndex := rfind l "."%char in
  if bool_decide (sepIndex < dotIndex)%Z
     && existsb (λ a, negb (Ascii.eqb a "."%char))
          (take (Z.to_nat (dotIndex - (sepIndex + 1)))
                (drop (Z.to_nat (sepIndex + 1)) l))
  then (string_of_list_ascii (take (Z.to_nat dotIndex) l),
        string_of_list_ascii (drop (Z.to_nat dotIndex) l))
  else (p, ""%string).

(** [str.lower] on ASCII letters. *)
Definition lower_ascii (a : ascii) : ascii :=
  let n := Ascii.nat_of_ascii a in
  if bool_decide (65 ≤ n ≤ 90) then Ascii.ascii_of_nat (n + 32) else a.

Definition lower (s : string) : string :=
  string_of_list_ascii (lower_ascii <$> list_ascii_of_string s).

(** [Image.open]: raises unless the path names a raster file.  Only
    three-band RGB files are represented; a greyscale or palette file, whose
    pixels are not triples, is outside this model. *)
Definition Image_open (path : string) : Run Image :=
  λ w, match files w !! path with
       | Some (RegularFile (Some im)) => (inr im, w)
       | _ => (inl (Raised OSError), w)
       end.

(** Some of the extensions Pillow registers a lossless writer for. *)
Definition EXTENSION : list string :=
  [".png"; ".bmp"; ".ppm"; ".tif"; ".tiff"]%string.

(** [Image.save], for a non-empty image, a path in an existing directory
    and the lossless formats above: the format comes from the extension
    ([ValueError] when it is not one of them); the file is then created or
    truncated, and written.  Paths are keys as they are spelled: two
    spellings of one file are two keys.  What [main] does for any behaviour
    of [Image.save] is stated on [main_with] below. *)
Definition Image_save (im : Image) (path : string) : Run () :=
  λ w, if bool_decide (lower (splitext path).2 ∈ EXTENSION) then
         match files w !! path with
         | Some Directory => (inl (Raised OSError), w)
         | _ => (inr (),
                 mkWorld (<[path := RegularFile (Some im)]> (files w))
                         (stdout w) (stderr w))
         end
       else (inl (Raised ValueError), w).

(** The grid transforms raise [IndexError] where the model returns [None]. *)
Definition from_option {A : Type} (o : option A) : Run A :=
  match o with Some a => mret a | None => raise IndexError end.

(** What [parse_args] returns.  [-m] and [-c] are required and take one
    value ([nargs=1]: a list of one string, here the string); [-s] takes one
    value or is absent ([None]); [-o] takes one value or is [None]. *)
Record Namespace := mkNamespace {
  method : string;
  camul : string;
  secret : option string;
  output : option string
}.

(** [args.secret[0]]: [None] is not subscriptable. *)
Definition subscript0 (o : option string) : Run string :=
  match o with Some s => mret s | None => raise TypeError end.

(** A path argument of [os.path] or [Image.open]: [None] is not a path. *)
Definition as_path (o : option string) : Run string :=
  match o with Some s => mret s | None => raise TypeError end.

(** [hide_image(camul, secret)] on paths (lines 45-70). *)
Definition hide_image_at (camul secret : string) : Run Image :=
  camul_data ← Image_open camul;
  secret_data ← Image_open secret;
  from_option (hide_image camul_data secret_data).

(** [extract_image(camul)] on a path (lines 73-94). *)
Definition extract_image_at (camul : string) : Run Image :=
  camul_data ← Image_open camul;
  from_option (extract_image camul_data).

(** [main] from line 105 on, for the namespace [parse_args] has returned;
    [parse_args] itself (its usage errors and [-h], which exit with status 2
    and 0) is not part of it. *)
Definition main (args : Namespace) : Run () :=
  let method := lower (method args) in
  let camul := camul args in
  (* lines 107-108 *)
  secret ← (if bool_decide (method = "hide"%string)
            then (s ← subscript0 (secret args); mret (Some s))
            else mret (secret args));
  when (bool_decide (method ≠ "hide"%string)
        && bool_decide (method ≠ "extract"%string))
    (stderr_write "Error: invalid method";; sys_exit 1);;
  when (bool_decide (method = "hide"%string) && bool_decide (secret = None))
    (stderr_write "Error: Method hide requires secret to be provided";;
     sys_exit 1);;
  camul_exists ← os_path_exists camul;
  camul_isfile ← os_path_isfile camul;
  when (negb camul_exists || negb camul_isfile)
    (stderr_write ("Error: " +:+ camul +:+ " doesn't exist or is not a file");;
     sys_exit 1);;
  when (bool_decide (method = "hide"%string))
    (secret ← as_path secret;
     secret_exists ← os_path_exists secret;
     secret_isfile ← os_path_isfile secret;
     when (negb secret_exists || negb secret_isfile)
       (stderr_write ("Error: " +:+ secret +:+ " doesn't exist or is not a file");;
        sys_exit 1));;
  (* line 127 *)
  match output args with
  | Some output =>
      output_exists ← os_path_exists output;
      when output_exists
        (stderr_write ("Error: " +:+ output +:+ " already exists");;
         sys_exit 1)
  | None => mret ()
  end;;
  (* lines 132-139 *)
  output ←
    (if bool_decide (method = "hide"%string) then
       let output := default ("hidden" +:+ (splitext camul).2) (output args) in
       secret ← as_path secret;
       data ← hide_image_at camul secret;
       Image_save data output;;
       mret output
     else
       let output := default ("extracted" +:+ (splitext camul).2) (output args) in
       data ← extract_image_at camul;
       Image_save data output;;
       mret output);
  print (output +:+ " generated").

(** A run with no [--output]: the working directory already holds
    [extracted.png]. *)
Definition old_extracted : Image := mkImage (1, 1) [RGB 1 2 3].

Definition sample_files : gmap string node :=
  {[ "enc.png"%string := RegularFile (Some sample_hidden);
     "extracted.png"%string := RegularFile (Some old_extracted) ]}.

Definition sample_world : World := mkWorld sample_files [] "".

(** Well-formedness of a literal image. *)
Ltac solve_wf :=
  split; [reflexivity | repeat constructor; cbn; lia].

(** A step of [main] that leaves every file as it is. *)
Definition keeps_files {A : Type} (m : Run A) : Prop :=
  ∀ w, files (m w).2 = files w.

(** From the world [w], the run [m] stops early and leaves every file as it
    is. *)
Definition stops_keeping_files {A : Type} (m : Run A) (w : World) : Prop :=
  ∃ e w', m w = (inl e, w') ∧ files w' = files w.

(** The byte [v] is the byte [c] with other low bits: same top six bits,
    at most 3 away. *)
Definition near_value (c v : Z) : Prop :=
  Z.land v 252 = Z.land c 252 ∧ (c - 3 ≤ v ≤ c + 3)%Z.

Definition near_pixel (p v : pixel) : Prop :=
  near_value (red p) (red v) ∧ near_value (green p) (green v) ∧
  near_value (blue p) (blue v).

(** Two pixels with the same top six bits in every band. *)
Definition same_top_bits (p p' : pixel) : Prop :=
  truncate_rightmost_2bits (red p) = truncate_rightmost_2bits (red p') ∧
  truncate_rightmost_2bits (green p) = truncate_rightmost_2bits (green p') ∧
  truncate_rightmost_2bits (blue p) = truncate_rightmost_2bits (blue p').

(** Two pixels with the same two low bits in every band. *)
Definition same_low_bits (p p' : pixel) : Prop :=
  (red p `mod` 4 = red p' `mod` 4)%Z ∧ (green p `mod` 4 = green p' `mod` 4)%Z ∧
  (blue p `mod` 4 = blue p' `mod` 4)%Z.

(** The path [main] saves to (lines 132-138): [--output], or the default
    name with the extension of the carrier path. *)
Definition resolved_output (args : Namespace) : string :=
  if bool_decide (lower (method args) = "hide"%string)
  then default ("hidden" +:+ (splitext (camul args)).2) (output args)
  else default ("extracted" +:+ (splitext (camul args)).2) (output args).

(** What [os.path.exists(path) and os.path.isfile(path)] tests. *)
Definition is_regular_file (w : World) (path : string) : Prop :=
  ∃ content, files w !! path = Some (RegularFile content).

(** The world after [sys.stderr.write(msg)]. *)
Definition with_stderr (w : World) (msg : string) : World :=
  mkWorld (files w) (stdout w) (stderr w +:+ msg).

(** How a run that ended in [sys.exit(status)] left the world [w]: status
    1, one message starting with [Error: ] appended to stderr, no file
    changed, nothing printed. *)
Definition clean_exit (w w' : World) (status : Z) : Prop :=
  status = 1%Z ∧ files w' = files w ∧ stdout w' = stdout w ∧
  ∃ msg, stderr w' = stderr w +:+ ("Error: " +:+ msg).

(** A step that either goes on in the same world, raises, or exits
    cleanly. *)
Definition quiet {A : Type} (m : Run A) : Prop :=
  ∀ w, match m w with
       | (inr _, w') => w' = w
       | (inl (SystemExit status), w') => clean_exit w w' status
       | (inl (Raised _), _) => True
       end.

Definition never_exits {A : Type} (m : Run A) : Prop :=
  ∀ w status w', m w ≠ (inl (SystemExit status), w').

Definition exits_cleanly {A : Type} (m : Run A) : Prop :=
  ∀ w status w', m w = (inl (SystemExit status), w') → clean_exit w w' status.

(** ** The script as the interpreter runs it (lines 144-146)

    [main()] is called at top level.  A normal return ends the process with
    status 0 and [sys.exit(status)] with that status; an uncaught exception
    makes the interpreter print the traceback to stderr and end the process with
    status 1. *)

Definition exception_name (e : exception) : string :=
  match e with
  | TypeError => "TypeError"
  | IndexError => "IndexError"
  | ValueError => "ValueError"
  | OSError => "OSError"
  end.

(** The first line and the last line of the traceback; the stack frames
    between them and the text after the exception's name are left out. *)
Definition traceback (e : exception) : string :=
  "Traceback (most recent call last): " +:+ exception_name e.

Definition run_script (args : Namespace) (w : World) : Z * World :=
  match main args w with
  | (inr _, w') => (0%Z, w')
  | (inl (SystemExit status), w') => (status, w')
  | (inl (Raised e), w') => (1%Z, with_stderr w' (traceback e))
  end.

(** ** [main] over its collaborators

    The code of [main] once more, with [os.path.exists], [os.path.isfile],
    [Image.open] and [Image.save] as parameters.  A theorem about
    [main_with] assumes of them only what its hypotheses say, so it holds
    for any file system (directories, several spellings of one path) and
    for any file format.  [image_open] gives the RGB image a file holds. *)

Section collaborators.
Variables (path_exists path_isfile : string → Run bool).
Variable image_open : string → Run Image.
Variable image_save : Image → string → Run ().

(** [(not os.path.exists(path)) or (not os.path.isfile(path))]: [or] asks
    [isfile] only when [exists] answered true. *)
Definition not_a_file (path : string) : Run bool :=
  path_exists_ ← path_exists path;
  if negb path_exists_ then mret true
  else (path_isfile_ ← path_isfile path; mret (negb path_isfile_)).

Definition hide_image_with (camul secret : string) : Run Image :=
  camul_data ← image_open camul;
  secret_data ← image_open secret;
  from_option (hide_image camul_data secret_data).

Definition extract_image_with (camul : string) : Run Image :=
  camul_data ← image_open camul;
  from_option (extract_image camul_data).

Definition main_with (args : Namespace) : Run () :=
  let method := lower (method args) in
  let camul := camul args in
  (* lines 107-108 *)
  secret ← (if bool_decide (method = "hide"%string)
            then (s ← subscript0 (secret args); mret (Some s))
            else mret (secret args));
  when (bool_decide (method ≠ "hide"%string)
        && bool_decide (method ≠ "extract"%string))
    (stderr_write "Error: invalid method";; sys_exit 1);;
  when (bool_decide (method = "hide"%string) && bool_decide (secret = None))
    (stderr_write "Error: Method hide requires secret to be provided";;
     sys_exit 1);;
  camul_missing ← not_a_file camul;
  when camul_missing
    (stderr_write ("Error: " +:+ camul +:+ " doesn't exist or is not a file");;
     sys_exit 1);;
  when (bool_decide (method = "hide"%string))
    (secret ← as_path secret;
     secret_missing ← not_a_file secret;
     when secret_missing
       (stderr_write ("Error: " +:+ secret +:+ " doesn't exist or is not a file");;
        sys_exit 1));;
  (* line 127 *)
  match output args with
  | Some output =>
      output_exists ← path_exists output;
      when output_exists
        (stderr_write ("Error: " +:+ output +:+ " already exists");;
         sys_exit 1)
  | None => mret ()
  end;;
  (* lines 132-139 *)
  output ←
    (if bool_decide (method = "hide"%string) then
       let output := default ("hidden" +:+ (splitext camul).2) (output args) in
       secret ← as_path secret;
       data ← hide_image_with camul secret;
       image_save data output;;
       mret output
     else
       let output := default ("extracted" +:+ (splitext camul).2) (output args) in
       data ← extract_image_with camul;
       image_save data output;;
       mret output);
  print (output +:+ " generated").

(** A step that, when it returns, has left the world as it was and, when it
    stops, has left the files as they were. *)
Definition returns_unchanged {A : Type} (m : Run A) : Prop :=
  ∀ w, match m w with
       | (inr _, w') => w' = w
       | (inl _, w') => files w' = files w
       end.

(** A step whose only effect on the files is, at most, that of one
    [image_save] at [path], made in the world the step started from. *)
Definition saves_only_at {A : Type} (path : string) (m : Run A) : Prop :=
  ∀ w, files (m w).2 = files w ∨
       ∃ im, files (m w).2 = files (image_save im path w).2.
End collaborators.



(** ** Bit-level facts *)

Lemma group_at (v k : Z) :
  (0 ≤ k)%Z →
  Z.shiftr (Z.land v (Z.shiftl 3 k)) k = (Z.shiftr v k `mod` 4)%Z.
Proof.
  intros Hk.
  rewrite Z.shiftr_land, Z.shiftr_shiftl_l, Z.sub_diag by lia.
  change (Z.shiftl 3 0) with (Z.ones 2).
  by rewrite Z.land_ones.
Qed.

Lemma land_3_mod (v : Z) : Z.land v 3 = (v `mod` 4)%Z.
Proof. change 3%Z with (Z.ones 2). by rewrite Z.land_ones. Qed.

Lemma get_2bit_groups_mod (v : Z) :
  get_2bit_groups v =
  [ (Z.shiftr v 6 `mod` 4)%Z; (Z.shiftr v 4 `mod` 4)%Z;
    (Z.shiftr v 2 `mod` 4)%Z; (v `mod` 4)%Z ].
Proof.
  unfold get_2bit_groups, range. cbn [seq fmap list_fmap rev app].
  rewrite !group_at by lia. by rewrite Z.shiftr_0_r.
Qed.

Lemma truncate_div (v : Z) : truncate_rightmost_2bits v = (4 * (v `div` 4))%Z.
Proof.
  unfold truncate_rightmost_2bits.
  rewrite Z.shiftl_mul_pow2, Z.shiftr_div_pow2 by lia.
  change (2 ^ 2)%Z with 4%Z. lia.
Qed.

(** Masking a byte with [0b11111100] clears its two low bits. *)
Lemma land_252_truncate (v : Z) :
  uint8 v → Z.land v 252 = truncate_rightmost_2bits v.
Proof.
  intros [Hlo Hhi]. unfold truncate_rightmost_2bits.
  apply Z.bits_inj'. intros n Hn.
  rewrite Z.land_spec.
  destruct (decide (n < 2)%Z) as [Hlt|Hge].
  - rewrite Z.shiftl_spec_low by lia.
    assert (n = 0 ∨ n = 1)%Z as [-> | ->] by lia; cbn; apply andb_false_r.
  - rewrite Z.shiftl_spec, Z.shiftr_spec by lia.
    replace (n - 2 + 2)%Z with n by lia.
    destruct (decide (n < 8)%Z) as [Hlt8|Hge8].
    + assert (n = 2 ∨ n = 3 ∨ n = 4 ∨ n = 5 ∨ n = 6 ∨ n = 7)%Z
        as [-> | [-> | [-> | [-> | [-> | ->]]]]] by lia;
        cbn; apply andb_true_r.
    + assert (Z.testbit v n = false) as ->; [|done].
      destruct (decide (v = 0%Z)) as [->|Hnz]; [apply Z.bits_0|].
      apply Z.bits_above_log2; [lia|].
      assert (Z.log2 v < 8)%Z; [|lia].
      apply Z.log2_lt_pow2; lia.
Qed.

Lemma merged_value_bounds (c g : Z) :
  uint8 c → (0 ≤ g ≤ 3)%Z → uint8 (truncate_rightmost_2bits c + g).
Proof.
  unfold uint8. rewrite truncate_div. intros Hc Hg.
  pose proof (Z.div_mod c 4). pose proof (Z.mod_pos_bound c 4). lia.
Qed.

Lemma merged_value_truncate (c g : Z) :
  (0 ≤ g ≤ 3)%Z →
  truncate_rightmost_2bits (truncate_rightmost_2bits c + g) =
  truncate_rightmost_2bits c.
Proof.
  intros Hg. rewrite !truncate_div.
  f_equal. symmetry. apply (Z.div_unique _ 4 _ g); lia.
Qed.

Lemma merged_value_mod (c g : Z) :
  (0 ≤ g ≤ 3)%Z → ((truncate_rightmost_2bits c + g) `mod` 4 = g)%Z.
Proof.
  intros Hg. rewrite truncate_div.
  symmetry. apply (Z.mod_unique _ 4 (c `div` 4) g); lia.
Qed.

Lemma mod4_bounds (v : Z) : (0 ≤ v `mod` 4 ≤ 3)%Z.
Proof. pose proof (Z.mod_pos_bound v 4). lia. Qed.

Lemma merge_pixel_value_unfold (c s : Z) :
  merge_pixel_value c s =
  [ (truncate_rightmost_2bits c + Z.shiftr s 6 `mod` 4)%Z;
    (truncate_rightmost_2bits c + Z.shiftr s 4 `mod` 4)%Z;
    (truncate_rightmost_2bits c + Z.shiftr s 2 `mod` 4)%Z;
    (truncate_rightmost_2bits c + s `mod` 4)%Z ].
Proof. unfold merge_pixel_value. by rewrite get_2bit_groups_mod. Qed.

Lemma extract_pixel_value_four (a b c d : Z) :
  extract_pixel_value [a; b; c; d] =
  Some (64 * (a `mod` 4) + 16 * (b `mod` 4) + 4 * (c `mod` 4) + d `mod` 4)%Z.
Proof.
  unfold extract_pixel_value. cbn [fmap list_fmap lookup list_lookup mbind option_bind drop fold_left].
  rewrite !Z.shiftl_mul_pow2 by lia.
  change (2 ^ 2)%Z with 4%Z. change (1 * 4)%Z with 4%Z. f_equal. lia.
Qed.

Lemma byte_of_groups (s : Z) :
  uint8 s →
  (64 * (Z.shiftr s 6 `mod` 4) + 16 * (Z.shiftr s 4 `mod` 4)
   + 4 * (Z.shiftr s 2 `mod` 4) + s `mod` 4 = s)%Z.
Proof.
  intros [Hlo Hhi]. rewrite !Z.shiftr_div_pow2 by lia.
  change (2 ^ 6)%Z with 64%Z. change (2 ^ 4)%Z with 16%Z. change (2 ^ 2)%Z with 4%Z.
  assert (s `div` 64 < 4)%Z by (apply Z.div_lt_upper_bound; lia).
  assert (0 ≤ s `div` 64)%Z by (apply Z.div_pos; lia).
  rewrite (Z.mod_small (s `div` 64) 4) by lia.
  replace (s `div` 16)%Z with ((s `div` 4) `div` 4)%Z
    by (rewrite Z.div_div by lia; done).
  replace (s `div` 64)%Z with (((s `div` 4) `div` 4) `div` 4)%Z
    by (rewrite !Z.div_div by lia; done).
  pose proof (Z.div_mod s 4). pose proof (Z.div_mod (s `div` 4) 4).
  pose proof (Z.div_mod ((s `div` 4) `div` 4) 4).
  lia.
Qed.

(** ** Pixel access *)

Section pixel_access.
Implicit Types (im : Image) (xy : nat * nat) (v : pixel).

Lemma offset_inj im xy xy' :
  in_image im xy → in_image im xy' → offset im xy = offset im xy' → xy = xy'.
Proof.
  destruct xy as [x y], xy' as [x' y']. unfold in_image, offset. cbn.
  intros [Hx _] [Hx' _] Heq.
  assert (y = y') as -> by nia. f_equal. lia.
Qed.

Lemma offset_lt im xy :
  in_image im xy → offset im xy < (size im).1 * (size im).2.
Proof. destruct xy as [x y]. unfold in_image, offset. cbn. nia. Qed.

Lemma putpixel_Some im xy v :
  in_image im xy →
  putpixel im xy v =
    Some (mkImage (size im) (<[offset im xy := store_pixel v]> (data im))).
Proof. intros H. unfold putpixel. by rewrite decide_True. Qed.

Lemma putpixel_size im im' xy v :
  putpixel im xy v = Some im' → size im' = size im.
Proof. unfold putpixel. case_decide; [|done]. by intros [= <-]. Qed.

Lemma putpixel_length im im' xy v :
  putpixel im xy v = Some im' → length (data im') = length (data im).
Proof.
  unfold putpixel. case_decide; [|done]. intros [= <-]. cbn.
  apply length_insert.
Qed.

Lemma getpixel_putpixel_eq im im' xy v :
  length (data im) = (size im).1 * (size im).2 →
  putpixel im xy v = Some im' → getpixel im' xy = Some (store_pixel v).
Proof.
  intros Hlen. unfold putpixel, getpixel. case_decide as Hin; [|done].
  intros [= <-]. unfold in_image, offset in *. cbn.
  rewrite decide_True by done.
  apply list_lookup_insert_eq. rewrite Hlen. by apply (offset_lt im xy).
Qed.

Lemma getpixel_putpixel_ne im im' xy xy' v :
  putpixel im xy v = Some im' → xy' ≠ xy → getpixel im' xy' = getpixel im xy'.
Proof.
  unfold putpixel, getpixel. case_decide as Hin; [|done].
  intros [= <-] Hne. unfold in_image, offset in *. cbn.
  case_decide as Hin'; [|done].
  apply list_lookup_insert_ne. intros Heq.
  apply Hne. symmetry. by apply (offset_inj im xy xy').
Qed.

Lemma getpixel_is_Some im xy :
  length (data im) = (size im).1 * (size im).2 →
  in_image im xy → is_Some (getpixel im xy).
Proof.
  intros Hlen Hin. unfold getpixel. rewrite decide_True by done.
  apply lookup_lt_is_Some. rewrite Hlen. by apply offset_lt.
Qed.

Lemma getpixel_in_image im xy v : getpixel im xy = Some v → in_image im xy.
Proof. unfold getpixel. by case_decide. Qed.

Lemma getpixel_uint8 im xy v :
  wf_image im → getpixel im xy = Some v → uint8_pixel v.
Proof.
  intros [_ Hall]. unfold getpixel. case_decide; [|done]. intros Hl.
  by eapply Forall_lookup_1.
Qed.

Lemma Image_new_length sz :
  length (data (Image_new sz)) = sz.1 * sz.2.
Proof. cbn. apply length_replicate. Qed.

(** Two full buffers of one size with the same pixels are one image. *)
Lemma image_ext im1 im2 :
  size im1 = size im2 →
  length (data im1) = (size im1).1 * (size im1).2 →
  length (data im2) = (size im2).1 * (size im2).2 →
  (∀ x y, x < (size im1).1 → y < (size im1).2 →
          getpixel im1 (x, y) = getpixel im2 (x, y)) →
  im1 = im2.
Proof.
  destruct im1 as [[w h] d1], im2 as [[w' h'] d2]. cbn.
  intros [= <- <-] Hl1 Hl2 Hpx. f_equal.
  apply list_eq. intros k.
  destruct (decide (k < w * h)) as [Hk|Hk].
  - assert (0 < w) as Hw by nia.
    specialize (Hpx (k `mod` w) (k / w)).
    unfold getpixel, in_image, offset in Hpx. cbn in Hpx.
    assert (k `mod` w < w) as Hm by (apply Nat.mod_upper_bound; lia).
    assert (k / w < h) as Hd by (apply Nat.Div0.div_lt_upper_bound; lia).
    rewrite !decide_True in Hpx by done.
    replace (k / w * w + k `mod` w) with k in Hpx
      by (pose proof (Nat.div_mod_eq k w); lia).
    by apply Hpx.
  - rewrite !lookup_ge_None_2 by lia. done.
Qed.
End pixel_access.

(** ** Loops *)

Lemma for_each_seq_inv {St : Type} (P : nat → St → Prop)
    (body : nat → St → option St) (n a : nat) (s : St) :
  P a s →
  (∀ k t, a ≤ k < a + n → P k t → ∃ t', body k t = Some t' ∧ P (S k) t') →
  ∃ s', for_each (seq a n) body s = Some s' ∧ P (a + n) s'.
Proof.
  revert a s. induction n as [|n IH]; intros a s HP Hstep; cbn.
  - exists s. by rewrite Nat.add_0_r.
  - destruct (Hstep a s) as (t & -> & HP'); [lia|done|]. cbn.
    destruct (IH (S a) t) as (s' & Hs' & HP''); [done| |].
    + intros k u Hk. apply Hstep. lia.
    + exists s'. split; [done|]. by replace (a + S n) with (S a + n) by lia.
Qed.

(** ** One block of the encoder *)

Lemma CLIP8_uint8 (v : Z) : uint8 v → CLIP8 v = v.
Proof. unfold uint8, CLIP8. lia. Qed.

Lemma store_pixel_uint8 (v : pixel) : uint8_pixel v → store_pixel v = v.
Proof.
  destruct v as [r g b]. intros (Hr & Hg & Hb). unfold store_pixel. cbn in *.
  by rewrite !CLIP8_uint8.
Qed.

Lemma CLIP8_bounds (v : Z) : uint8 (CLIP8 v).
Proof. unfold uint8, CLIP8. lia. Qed.

Lemma store_pixel_bounds (v : pixel) : uint8_pixel (store_pixel v).
Proof. repeat split; apply CLIP8_bounds. Qed.

Lemma merge_pixel_value_lookup (c s : Z) (k : nat) :
  k < 4 →
  ∃ g, (0 ≤ g ≤ 3)%Z ∧
       merge_pixel_value c s !! k = Some (truncate_rightmost_2bits c + g)%Z.
Proof.
  intros Hk. rewrite merge_pixel_value_unfold.
  destruct k as [|[|[|[|k]]]]; [..|lia]; cbn;
    eexists; (split; [|reflexivity]); apply mod4_bounds.
Qed.

Lemma merged_pixel_Some (p q : pixel) (k : nat) :
  uint8_pixel p → k < 4 →
  ∃ v, merged_pixel p q k = Some v ∧ uint8_pixel v.
Proof.
  intros (Hr & Hg & Hb) Hk. unfold merged_pixel, triple_at.
  destruct (merge_pixel_value_lookup (red p) (red q) k Hk) as (gr & ? & ->).
  destruct (merge_pixel_value_lookup (green p) (green q) k Hk) as (gg & ? & ->).
  destruct (merge_pixel_value_lookup (blue p) (blue q) k Hk) as (gb & ? & ->).
  cbn. eexists. split; [done|].
  repeat split; cbn; by apply merged_value_bounds.
Qed.

Lemma extract_merge_band (c s : Z) (a b d e : Z) :
  uint8 s →
  merge_pixel_value c s !! 0 = Some a → merge_pixel_value c s !! 1 = Some b →
  merge_pixel_value c s !! 2 = Some d → merge_pixel_value c s !! 3 = Some e →
  extract_pixel_value [a; b; d; e] = Some s.
Proof.
  intros Hs. rewrite merge_pixel_value_unfold. intros H0 H1 H2 H3.
  cbn in H0, H1, H2, H3. simplify_eq.
  rewrite extract_pixel_value_four, !merged_value_mod by apply mod4_bounds.
  by rewrite byte_of_groups.
Qed.

Lemma triple_at_inv (rs gs bs : list Z) (k : nat) (v : pixel) :
  triple_at rs gs bs k = Some v →
  rs !! k = Some (red v) ∧ gs !! k = Some (green v) ∧ bs !! k = Some (blue v).
Proof.
  unfold triple_at.
  destruct (rs !! k), (gs !! k), (bs !! k); cbn; try done.
  by intros [= <-].
Qed.

Lemma extract_merged_pixels (p q v0 v1 v2 v3 : pixel) :
  uint8_pixel q →
  merged_pixel p q 0 = Some v0 → merged_pixel p q 1 = Some v1 →
  merged_pixel p q 2 = Some v2 → merged_pixel p q 3 = Some v3 →
  extract_pixel_value [red v0; red v1; red v2; red v3] = Some (red q) ∧
  extract_pixel_value [green v0; green v1; green v2; green v3]
    = Some (green q) ∧
  extract_pixel_value [blue v0; blue v1; blue v2; blue v3] = Some (blue q).
Proof.
  intros (Hr & Hg & Hb) H0 H1 H2 H3. unfold merged_pixel in *.
  apply triple_at_inv in H0 as (? & ? & ?), H1 as (? & ? & ?),
    H2 as (? & ? & ?), H3 as (? & ? & ?).
  repeat split; by eapply extract_merge_band.
Qed.

Lemma putpixel_is_Some (im : Image) (xy : nat * nat) (v : pixel) :
  in_image im xy → ∃ im', putpixel im xy v = Some im'.
Proof. intros H. rewrite putpixel_Some by done. eauto. Qed.

Lemma in_image_size (im im' : Image) (xy : nat * nat) :
  size im' = size im → in_image im xy → in_image im' xy.
Proof. unfold in_image. by intros ->. Qed.

Lemma hide_block_spec (camul_data secret_data im : Image) (i j : nat) :
  wf_image camul_data → length (data im) = (size im).1 * (size im).2 →
  in_image camul_data (i, j) → in_image secret_data (i, j) →
  length (data secret_data) = (size secret_data).1 * (size secret_data).2 →
  in_image im (2 * i + 1, 2 * j + 1) →
  ∃ im',
    hide_block camul_data secret_data i j im = Some im' ∧
    size im' = size im ∧
    length (data im') = length (data im) ∧
    block_written camul_data secret_data im' i j ∧
    (∀ x y, (x / 2, y / 2) ≠ (i, j) →
            getpixel im' (x, y) = getpixel im (x, y)).
Proof.
  intros Hwf Hlen Hc Hs Hslen Hin.
  destruct (getpixel_is_Some camul_data (i, j)) as [p Hp]; [apply Hwf|done|].
  destruct (getpixel_is_Some secret_data (i, j)) as [q Hq]; [done..|].
  assert (uint8_pixel p) as Hp8 by by eapply getpixel_uint8.
  destruct (merged_pixel_Some p q 0 Hp8) as (v0 & Hv0 & Hb0); [lia|].
  destruct (merged_pixel_Some p q 1 Hp8) as (v1 & Hv1 & Hb1); [lia|].
  destruct (merged_pixel_Some p q 2 Hp8) as (v2 & Hv2 & Hb2); [lia|].
  destruct (merged_pixel_Some p q 3 Hp8) as (v3 & Hv3 & Hb3); [lia|].
  assert (in_image im (2 * i, 2 * j) ∧ in_image im (2 * i + 1, 2 * j) ∧
          in_image im (2 * i, 2 * j + 1)) as (Hin0 & Hin1 & Hin2)
    by (unfold in_image in *; cbn in *; lia).
  destruct (putpixel_is_Some im (2 * i, 2 * j) v0 Hin0) as [d0 Hd0].
  pose proof (putpixel_size _ _ _ _ Hd0) as Hs0.
  pose proof (putpixel_length _ _ _ _ Hd0) as Hl0.
  destruct (putpixel_is_Some d0 (2 * i + 1, 2 * j) v1) as [d1 Hd1];
    [by eapply in_image_size|].
  pose proof (putpixel_size _ _ _ _ Hd1) as Hs1.
  pose proof (putpixel_length _ _ _ _ Hd1) as Hl1.
  destruct (putpixel_is_Some d1 (2 * i, 2 * j + 1) v2) as [d2 Hd2];
    [eapply in_image_size; [|done]; congruence|].
  pose proof (putpixel_size _ _ _ _ Hd2) as Hs2.
  pose proof (putpixel_length _ _ _ _ Hd2) as Hl2.
  destruct (putpixel_is_Some d2 (2 * i + 1, 2 * j + 1) v3) as [d3 Hd3];
    [eapply in_image_size; [|done]; congruence|].
  pose proof (putpixel_size _ _ _ _ Hd3) as Hs3.
  pose proof (putpixel_length _ _ _ _ Hd3) as Hl3.
  exists d3. split; [|split; [congruence|split; [congruence|split]]].
  - unfold hide_block. rewrite Hp, Hq. cbn [mbind option_bind]. cbv zeta.
    fold (merged_pixel p q 0) (merged_pixel p q 1) (merged_pixel p q 2)
      (merged_pixel p q 3).
    rewrite Hv0. cbn [mbind option_bind]. rewrite Hd0. cbn [mbind option_bind].
    rewrite Hv1. cbn [mbind option_bind]. rewrite Hd1. cbn [mbind option_bind].
    rewrite Hv2. cbn [mbind option_bind]. rewrite Hd2. cbn [mbind option_bind].
    by rewrite Hv3.
  - exists p, q, v0, v1, v2, v3. do 6 (split; [done|]).
    rewrite <-(store_pixel_uint8 v0) by done.
    rewrite <-(store_pixel_uint8 v1) by done.
    rewrite <-(store_pixel_uint8 v2) by done.
    rewrite <-(store_pixel_uint8 v3) by done.
    repeat split.
    + rewrite (getpixel_putpixel_ne _ _ _ _ _ Hd3),
        (getpixel_putpixel_ne _ _ _ _ _ Hd2),
        (getpixel_putpixel_ne _ _ _ _ _ Hd1) by (intros [=]; lia).
      by apply (getpixel_putpixel_eq im).
    + rewrite (getpixel_putpixel_ne _ _ _ _ _ Hd3),
        (getpixel_putpixel_ne _ _ _ _ _ Hd2) by (intros [=]; lia).
      apply (getpixel_putpixel_eq d0); [congruence|done].
    + rewrite (getpixel_putpixel_ne _ _ _ _ _ Hd3) by (intros [=]; lia).
      apply (getpixel_putpixel_eq d1); [congruence|done].
    + apply (getpixel_putpixel_eq d2); [congruence|done].
  - intros x y Hne.
    assert (∀ a b, a < 2 → b < 2 → (x, y) ≠ (2 * i + a, 2 * j + b)) as Hfar.
    { intros a b Ha Hb [= -> ->]. apply Hne.
      f_equal; symmetry;
        [apply (Nat.div_unique _ 2 _ a) | apply (Nat.div_unique _ 2 _ b)]; lia. }
    rewrite (getpixel_putpixel_ne _ _ _ _ _ Hd3) by (apply (Hfar 1 1); lia).
    rewrite (getpixel_putpixel_ne _ _ _ _ _ Hd2)
      by (replace (2 * i) with (2 * i + 0) by lia; apply (Hfar 0 1); lia).
    rewrite (getpixel_putpixel_ne _ _ _ _ _ Hd1)
      by (replace (2 * j) with (2 * j + 0) by lia; apply (Hfar 1 0); lia).
    apply (getpixel_putpixel_ne _ _ _ _ _ Hd0).
    replace (2 * i, 2 * j) with (2 * i + 0, 2 * j + 0) by (f_equal; lia).
    apply (Hfar 0 0); lia.
Qed.

Lemma putpixel_wf (im im' : Image) (xy : nat * nat) (v : pixel) :
  wf_image im → putpixel im xy v = Some im' → wf_image im'.
Proof.
  intros [Hlen Hall] Hput. split.
  - rewrite (putpixel_length _ _ _ _ Hput), (putpixel_size _ _ _ _ Hput). done.
  - unfold putpixel in Hput. case_decide; [|done]. simplify_eq. cbn.
    apply Forall_insert; [done|apply store_pixel_bounds].
Qed.

Lemma Image_new_wf (sz : nat * nat) : wf_image (Image_new sz).
Proof.
  split; [apply Image_new_length|]. cbn.
  apply Forall_replicate. repeat split; cbn; lia.
Qed.

Lemma hide_block_wf (camul_data secret_data im im' : Image) (i j : nat) :
  wf_image im → hide_block camul_data secret_data i j im = Some im' →
  wf_image im'.
Proof.
  intros Hwf. unfold hide_block. intros H. simplify_option_eq.
  eauto 6 using putpixel_wf.
Qed.

Lemma block_written_frame (camul_data secret_data im im' : Image)
    (i j i' j' : nat) :
  (∀ x y, (x / 2, y / 2) ≠ (i, j) → getpixel im' (x, y) = getpixel im (x, y)) →
  (i', j') ≠ (i, j) →
  block_written camul_data secret_data im i' j' →
  block_written camul_data secret_data im' i' j'.
Proof.
  intros Hframe Hne
    (p & q & v0 & v1 & v2 & v3 & Hp & Hq & M0 & M1 & M2 & M3 & H0 & H1 & H2 & H3).
  assert (∀ a b, a < 2 → b < 2 →
    getpixel im' (2 * i' + a, 2 * j' + b) = getpixel im (2 * i' + a, 2 * j' + b))
    as Hsame.
  { intros a b Ha Hb. apply Hframe.
    replace ((2 * i' + a) / 2) with i'
      by (apply (Nat.div_unique _ 2 _ a); lia).
    replace ((2 * j' + b) / 2) with j'
      by (apply (Nat.div_unique _ 2 _ b); lia).
    done. }
  exists p, q, v0, v1, v2, v3. do 6 (split; [done|]).
  pose proof (Hsame 0 0) as E00. pose proof (Hsame 1 0) as E10.
  pose proof (Hsame 0 1) as E01. pose proof (Hsame 1 1) as E11.
  rewrite !Nat.add_0_r in *.
  rewrite E00, E10, E01, E11 by lia. done.
Qed.

(** ** The encoder as a whole *)

Lemma hide_image_spec (camul_data secret_data : Image) :
  wf_image camul_data → wf_image secret_data →
  ∃ im,
    hide_image camul_data secret_data = Some im ∧
    size im = (2 * Nat.min (size camul_data).1 (size secret_data).1,
               2 * Nat.min (size camul_data).2 (size secret_data).2) ∧
    wf_image im ∧
    ∀ i j, i < Nat.min (size camul_data).1 (size secret_data).1 →
           j < Nat.min (size camul_data).2 (size secret_data).2 →
           block_written camul_data secret_data im i j.
Proof.
  intros Hc Hs. unfold hide_image.
  destruct (size camul_data) as [cxs cys] eqn:Ecs.
  destruct (size secret_data) as [sxs sys] eqn:Ess. cbn [fst snd].
  set (X := Nat.min cxs sxs). set (Y := Nat.min cys sys).
  set (P := λ (i : nat) (im : Image),
    size im = (2 * X, 2 * Y) ∧ wf_image im ∧
    ∀ i' j', i' < i → j' < Y → block_written camul_data secret_data im i' j').
  destruct (for_each_seq_inv P
    (λ i im, for_each (seq 0 Y)
       (λ j im, hide_block camul_data secret_data i j im) im)
    X 0 (Image_new (2 * X, 2 * Y))) as (im & Him & Hsz & Hwf & Hblk).
  - split; [done|]. split; [apply Image_new_wf|]. intros; lia.
  - intros i im0 Hi (Hsz0 & Hwf0 & Hblk0).
    set (Q := λ (j : nat) (im : Image),
      size im = (2 * X, 2 * Y) ∧ wf_image im ∧
      (∀ i' j', i' < i → j' < Y → block_written camul_data secret_data im i' j') ∧
      (∀ j', j' < j → block_written camul_data secret_data im i j')).
    destruct (for_each_seq_inv Q
      (λ j im, hide_block camul_data secret_data i j im) Y 0 im0)
      as (im1 & Him1 & Hsz1 & Hwf1 & Hold & Hnew).
    + split; [done|]. split; [done|]. split; [done|]. intros; lia.
    + intros j im1 Hj (Hsz1 & Hwf1 & Hold & Hcol).
      destruct (hide_block_spec camul_data secret_data im1 i j)
        as (im2 & Hrun & Hsz2 & _ & Hbw & Hframe).
      * done.
      * apply Hwf1.
      * unfold in_image. rewrite Ecs. cbn. lia.
      * unfold in_image. rewrite Ess. cbn. lia.
      * apply Hs.
      * unfold in_image. rewrite Hsz1. cbn. lia.
      * exists im2. split; [done|]. split; [congruence|].
        split; [by eapply hide_block_wf|]. split.
        -- intros i' j' Hi' Hj'.
           eapply block_written_frame; [done| |by apply Hold].
           intros [=]; lia.
        -- intros j' Hj'. destruct (decide (j' = j)) as [->|Hne]; [done|].
           eapply block_written_frame; [done| |apply Hcol; lia].
           intros [=]; lia.
    + exists im1. split; [done|]. split; [done|]. split; [done|].
      intros i' j' Hi' Hj'. destruct (decide (i' = i)) as [->|Hne].
      * apply Hnew. lia.
      * apply Hold; lia.
  - exists im. split; [done|]. split; [done|]. split; [done|].
    intros i j Hi Hj. apply Hblk; lia.
Qed.

(** ** The decoder *)

Lemma extract_pixel_value_uint8 (a b c d : Z) :
  ∃ v, extract_pixel_value [a; b; c; d] = Some v ∧ uint8 v.
Proof.
  rewrite extract_pixel_value_four. eexists. split; [done|].
  pose proof (mod4_bounds a). pose proof (mod4_bounds b).
  pose proof (mod4_bounds c). pose proof (mod4_bounds d).
  unfold uint8. lia.
Qed.

Lemma extract_block_spec (camul_data im : Image) (i j : nat) :
  length (data camul_data) = (size camul_data).1 * (size camul_data).2 →
  in_image camul_data (2 * i + 1, 2 * j + 1) →
  wf_image im → in_image im (i, j) →
  ∃ im',
    extract_block camul_data i j im = Some im' ∧
    size im' = size im ∧ wf_image im' ∧
    block_read camul_data im' i j ∧
    (∀ xy, xy ≠ (i, j) → getpixel im' xy = getpixel im xy).
Proof.
  intros Hlen Hin Hwf Hij.
  assert (in_image camul_data (2 * i, 2 * j) ∧
          in_image camul_data (2 * i + 1, 2 * j) ∧
          in_image camul_data (2 * i, 2 * j + 1)) as (Hin1 & Hin2 & Hin3)
    by (unfold in_image in *; cbn in *; lia).
  destruct (getpixel_is_Some camul_data _ Hlen Hin1) as [p1 Hp1].
  destruct (getpixel_is_Some camul_data _ Hlen Hin2) as [p2 Hp2].
  destruct (getpixel_is_Some camul_data _ Hlen Hin3) as [p3 Hp3].
  destruct (getpixel_is_Some camul_data _ Hlen Hin) as [p4 Hp4].
  destruct (extract_pixel_value_uint8 (red p1) (red p2) (red p3) (red p4))
    as (qr & Hqr & Hr8).
  destruct (extract_pixel_value_uint8 (green p1) (green p2) (green p3) (green p4))
    as (qg & Hqg & Hg8).
  destruct (extract_pixel_value_uint8 (blue p1) (blue p2) (blue p3) (blue p4))
    as (qb & Hqb & Hb8).
  destruct (putpixel_is_Some im (i, j) (RGB qr qg qb) Hij) as [im' Hput].
  exists im'. split; [|split; [by eapply putpixel_size|split; [by eapply putpixel_wf|split]]].
  - unfold extract_block.
    rewrite Hp1, Hp2, Hp3, Hp4. cbn [mbind option_bind].
    rewrite Hqr, Hqg, Hqb. done.
  - exists p1, p2, p3, p4, qr, qg, qb. repeat (split; [done|]).
    rewrite <-(store_pixel_uint8 (RGB qr qg qb)) by done.
    eapply getpixel_putpixel_eq; [apply Hwf|done].
  - intros xy Hne. by eapply getpixel_putpixel_ne.
Qed.

Lemma block_read_frame (camul_data im im' : Image) (i j i' j' : nat) :
  (∀ xy, xy ≠ (i, j) → getpixel im' xy = getpixel im xy) →
  (i', j') ≠ (i, j) →
  block_read camul_data im i' j' → block_read camul_data im' i' j'.
Proof.
  intros Hframe Hne (p1 & p2 & p3 & p4 & qr & qg & qb & H).
  exists p1, p2, p3, p4, qr, qg, qb. rewrite Hframe by done. done.
Qed.

Lemma extract_image_spec (camul_data : Image) :
  length (data camul_data) = (size camul_data).1 * (size camul_data).2 →
  ∃ im,
    extract_image camul_data = Some im ∧
    size im = ((size camul_data).1 / 2, (size camul_data).2 / 2) ∧
    wf_image im ∧
    ∀ i j, i < (size camul_data).1 / 2 → j < (size camul_data).2 / 2 →
           block_read camul_data im i j.
Proof.
  intros Hlen. unfold extract_image.
  destruct (size camul_data) as [cxs cys] eqn:Ecs. cbn [fst snd].
  set (X := cxs / 2). set (Y := cys / 2).
  assert (2 * X ≤ cxs ∧ 2 * Y ≤ cys) as [HX HY].
  { split; apply Nat.Div0.mul_div_le. }
  set (P := λ (i : nat) (im : Image),
    size im = (X, Y) ∧ wf_image im ∧
    ∀ i' j', i' < i → j' < Y → block_read camul_data im i' j').
  destruct (for_each_seq_inv P
    (λ i im, for_each (seq 0 Y) (λ j im, extract_block camul_data i j im) im)
    X 0 (Image_new (X, Y))) as (im & Him & Hsz & Hwf & Hblk).
  - split; [done|]. split; [apply Image_new_wf|]. intros; lia.
  - intros i im0 Hi (Hsz0 & Hwf0 & Hblk0).
    set (Q := λ (j : nat) (im : Image),
      size im = (X, Y) ∧ wf_image im ∧
      (∀ i' j', i' < i → j' < Y → block_read camul_data im i' j') ∧
      (∀ j', j' < j → block_read camul_data im i j')).
    destruct (for_each_seq_inv Q
      (λ j im, extract_block camul_data i j im) Y 0 im0)
      as (im1 & Him1 & Hsz1 & Hwf1 & Hold & Hnew).
    + split; [done|]. split; [done|]. split; [done|]. intros; lia.
    + intros j im1 Hj (Hsz1 & Hwf1 & Hold & Hcol).
      destruct (extract_block_spec camul_data im1 i j)
        as (im2 & Hrun & Hsz2 & Hwf2 & Hbr & Hframe).
      * rewrite Hlen, Ecs. done.
      * unfold in_image. rewrite Ecs. cbn [fst snd]. lia.
      * done.
      * unfold in_image. rewrite Hsz1. cbn [fst snd]. lia.
      * exists im2. split; [done|]. split; [congruence|]. split; [done|]. split.
        -- intros i' j' Hi' Hj'.
           eapply block_read_frame; [done| |by apply Hold].
           intros [=]; lia.
        -- intros j' Hj'. destruct (decide (j' = j)) as [->|Hne]; [done|].
           eapply block_read_frame; [done| |apply Hcol; lia].
           intros [=]; lia.
    + exists im1. split; [done|]. split; [done|]. split; [done|].
      intros i' j' Hi' Hj'. destruct (decide (i' = i)) as [->|Hne].
      * apply Hnew. lia.
      * apply Hold; lia.
  - exists im. split; [done|]. split; [done|]. split; [done|].
    intros i j Hi Hj. apply Hblk; lia.
Qed.

(** ** Decoding an encoded image *)

Lemma decode_encode (camul_data secret_data : Image) :
  wf_image camul_data → wf_image secret_data →
  ∃ hidden extracted,
    hide_image camul_data secret_data = Some hidden ∧
    extract_image hidden = Some extracted ∧
    size extracted = (Nat.min (size camul_data).1 (size secret_data).1,
                      Nat.min (size camul_data).2 (size secret_data).2) ∧
    wf_image extracted ∧
    ∀ x y, x < Nat.min (size camul_data).1 (size secret_data).1 →
           y < Nat.min (size camul_data).2 (size secret_data).2 →
           getpixel extracted (x, y) = getpixel secret_data (x, y).
Proof.
  intros Hc Hs.
  destruct (hide_image_spec camul_data secret_data Hc Hs)
    as (hidden & Hhide & Hsz & Hwf & Hblk).
  destruct (extract_image_spec hidden) as (extracted & Hext & Hsz' & Hwf' & Hrd);
    [apply Hwf|].
  rewrite Hsz in Hsz', Hrd. cbn [fst snd] in Hsz', Hrd.
  rewrite !(Nat.mul_comm 2), !Nat.div_mul in Hsz', Hrd by lia.
  exists hidden, extracted. repeat (split; [done|]).
  intros x y Hx Hy.
  destruct (Hblk x y Hx Hy)
    as (p & q & v0 & v1 & v2 & v3 & Hp & Hq & M0 & M1 & M2 & M3 & H0 & H1 & H2 & H3).
  destruct (Hrd x y Hx Hy)
    as (p1 & p2 & p3 & p4 & qr & qg & qb & G1 & G2 & G3 & G4 & Hr & Hg & Hb & Hout).
  rewrite Hout, Hq.
  assert (v0 = p1 ∧ v1 = p2 ∧ v2 = p3 ∧ v3 = p4) as (-> & -> & -> & ->)
    by (repeat split; congruence).
  destruct (extract_merged_pixels p q p1 p2 p3 p4) as (Er & Eg & Eb);
    [by apply (getpixel_uint8 secret_data (x, y))|done..|].
  destruct q as [r g b]. cbn [red green blue] in *.
  congruence.
Qed.

(** * The claims *)

(** C5. For a byte [v], [get_2bit_groups v] yields exactly the four groups
    [(v >> 6) & 0b11], [(v >> 4) & 0b11], [(v >> 2) & 0b11], [v & 0b11], most
    significant pair first, and each of them lies in [0,3]. *)
Theorem get_2bit_groups_spec (v : Z) :
  uint8 v →
  get_2bit_groups v =
    [ Z.land (Z.shiftr v 6) 3; Z.land (Z.shiftr v 4) 3;
      Z.land (Z.shiftr v 2) 3; Z.land v 3 ]
  ∧ Forall (λ g, 0 ≤ g ≤ 3)%Z (get_2bit_groups v).
Proof.
  intros _. rewrite get_2bit_groups_mod, !land_3_mod. split; [done|].
  repeat constructor; apply mod4_bounds.
Qed.

Lemma get_2bit_groups_spec_witness :
  uint8 180 ∧ get_2bit_groups 180 = [2; 3; 1; 0]%Z.
Proof.
  assert (uint8 180) as H by (unfold uint8; lia).
  split; [exact H|]. exact (proj1 (get_2bit_groups_spec 180 H)).
Defined.

Example sample_hide :
  hide_image sample_camul sample_secret =
  Some (mkImage (2, 2)
          [RGB 201 11 4; RGB 200 11 4; RGB 203 10 4; RGB 201 10 5]).
Proof. reflexivity. Qed.

(** A carrier of 2x2 and a secret of 3x2: only the overlap is hidden, and
    extraction gives that part of the secret back. *)
Example sample_overlap :
  hide_image
    (mkImage (2, 2) [RGB 0 255 128; RGB 7 8 9; RGB 254 1 2; RGB 30 40 50])
    (mkImage (3, 2) [RGB 1 2 3; RGB 4 5 6; RGB 7 8 9;
                     RGB 255 254 253; RGB 128 64 32; RGB 0 0 0])
    ≫= extract_image =
  Some (mkImage (2, 2) [RGB 1 2 3; RGB 4 5 6; RGB 255 254 253; RGB 128 64 32]).
Proof. reflexivity. Qed.

(** C2. For every carrier byte [c] and secret byte [s], extracting from the
    four values merged from [c] and [s] gives back [s]. *)
Theorem extract_merge_inverse (c s : Z) :
  uint8 c → uint8 s →
  extract_pixel_value (merge_pixel_value c s) = Some s.
Proof.
  intros _ Hs. rewrite merge_pixel_value_unfold, extract_pixel_value_four.
  rewrite !merged_value_mod by apply mod4_bounds.
  by rewrite byte_of_groups.
Qed.

Lemma extract_merge_inverse_witness :
  uint8 200 ∧ uint8 77 ∧
  extract_pixel_value (merge_pixel_value 200 77) = Some 77%Z.
Proof.
  assert (uint8 200) as Hc by (unfold uint8; lia).
  assert (uint8 77) as Hs by (unfold uint8; lia).
  split; [exact Hc|]. split; [exact Hs|].
  exact (extract_merge_inverse 200 77 Hc Hs).
Defined.

(** C4. For every carrier byte [c] and secret byte [s], [merge_pixel_value]
    returns four values; each has the top six bits of [c]
    ([v & 0b11111100 = c & 0b11111100]) and lies in [0,255]. *)
Theorem merge_keeps_top_bits (c s : Z) :
  uint8 c → uint8 s →
  length (merge_pixel_value c s) = 4 ∧
  ∀ i v, merge_pixel_value c s !! i = Some v →
         Z.land v 252 = Z.land c 252 ∧ uint8 v.
Proof.
  intros Hc _. split; [by rewrite merge_pixel_value_unfold|].
  intros i v Hv.
  assert (i < 4) as Hi.
  { apply lookup_lt_Some in Hv. by rewrite merge_pixel_value_unfold in Hv. }
  destruct (merge_pixel_value_lookup c s i Hi) as (g & Hg & Hl).
  rewrite Hl in Hv. simplify_eq.
  pose proof (merged_value_bounds c g Hc Hg) as Hb.
  split; [|done].
  by rewrite !land_252_truncate, merged_value_truncate.
Qed.

Lemma merge_keeps_top_bits_witness :
  uint8 200 ∧ uint8 77 ∧
  merge_pixel_value 200 77 = [201; 200; 203; 201]%Z ∧
  (Z.land 203 252 = Z.land 200 252 ∧ uint8 203).
Proof.
  assert (uint8 200) as Hc by (unfold uint8; lia).
  assert (uint8 77) as Hs by (unfold uint8; lia).
  split; [exact Hc|]. split; [exact Hs|]. split; [reflexivity|].
  exact (proj2 (merge_keeps_top_bits 200 77 Hc Hs) 2 203%Z eq_refl).
Defined.

(** C1. Round trip: for a carrier image and a secret image of the same size,
    both full grids of bytes, hiding succeeds and extracting from the hidden
    image gives back the secret image, every pixel and every channel. *)
Theorem hide_extract_roundtrip (camul_data secret_data : Image) :
  wf_image camul_data → wf_image secret_data →
  size camul_data = size secret_data →
  ∃ hidden,
    hide_image camul_data secret_data = Some hidden ∧
    extract_image hidden = Some secret_data.
Proof.
  intros Hc Hs Hsz.
  destruct (decode_encode camul_data secret_data Hc Hs)
    as (hidden & extracted & Hhide & Hext & Hsz' & Hwf & Hpx).
  rewrite Hsz, !Nat.min_id in Hsz', Hpx.
  exists hidden. split; [done|]. rewrite Hext. f_equal.
  apply image_ext.
  - rewrite Hsz'. by destruct (size secret_data).
  - apply Hwf.
  - apply Hs.
  - rewrite Hsz'. cbn [fst snd]. done.
Qed.

Lemma hide_extract_roundtrip_witness :
  wf_image sample_camul ∧ wf_image sample_secret ∧
  size sample_camul = size sample_secret ∧
  ∃ hidden,
    hide_image sample_camul sample_secret = Some hidden ∧
    extract_image hidden = Some sample_secret.
Proof.
  assert (wf_image sample_camul) as Hc by solve_wf.
  assert (wf_image sample_secret) as Hs by solve_wf.
  split; [exact Hc|]. split; [exact Hs|]. split; [reflexivity|].
  exact (hide_extract_roundtrip sample_camul sample_secret Hc Hs eq_refl).
Defined.

(** C3. Dimension contract: hiding in a carrier of size (Cw,Ch) a secret of
    size (Sw,Sh) returns an image of size (2*min(Cw,Sw), 2*min(Ch,Sh)), and
    extracting from an image of size (Ew,Eh) returns an image of size
    (Ew // 2, Eh // 2). *)
Theorem dimension_contract (camul_data secret_data hidden : Image) :
  wf_image camul_data → wf_image secret_data → wf_image hidden →
  (∃ out, hide_image camul_data secret_data = Some out ∧
          size out = (2 * Nat.min (size camul_data).1 (size secret_data).1,
                      2 * Nat.min (size camul_data).2 (size secret_data).2)) ∧
  (∃ out, extract_image hidden = Some out ∧
          size out = ((size hidden).1 / 2, (size hidden).2 / 2)).
Proof.
  intros Hc Hs Hh. split.
  - destruct (hide_image_spec camul_data secret_data Hc Hs) as (out & ? & ? & _).
    by exists out.
  - destruct (extract_image_spec hidden) as (out & ? & ? & _); [apply Hh|].
    by exists out.
Qed.

Lemma dimension_contract_witness :
  wf_image wide_camul ∧ wf_image sample_secret ∧ wf_image sample_hidden ∧
  (∃ out, hide_image wide_camul sample_secret = Some out ∧ size out = (2, 2)) ∧
  (∃ out, extract_image sample_hidden = Some out ∧ size out = (1, 1)).
Proof.
  assert (wf_image wide_camul) as Hc by solve_wf.
  assert (wf_image sample_secret) as Hs by solve_wf.
  assert (wf_image sample_hidden) as Hh by solve_wf.
  split; [exact Hc|]. split; [exact Hs|]. split; [exact Hh|].
  exact (dimension_contract wide_camul sample_secret sample_hidden Hc Hs Hh).
Defined.

(** C6. Carrier independence: for two carrier images of one size whose
    channel values agree in their two low bits everywhere, and any secret
    image, hiding the secret and extracting it again gives the same image for
    both carriers; and [extract_pixel_value] depends only on the two low bits
    of each of its four inputs. *)
Theorem carrier_independence (camul_data camul_data' secret_data : Image) :
  wf_image camul_data → wf_image camul_data' → wf_image secret_data →
  size camul_data = size camul_data' →
  (∀ xy p p',
     getpixel camul_data xy = Some p → getpixel camul_data' xy = Some p' →
     Z.land (red p) 3 = Z.land (red p') 3 ∧
     Z.land (green p) 3 = Z.land (green p') 3 ∧
     Z.land (blue p) 3 = Z.land (blue p') 3) →
  (∃ extracted,
     hide_image camul_data secret_data ≫= extract_image = Some extracted ∧
     hide_image camul_data' secret_data ≫= extract_image = Some extracted) ∧
  (∀ a b c d a' b' c' d' : Z,
     Z.land a 3 = Z.land a' 3 → Z.land b 3 = Z.land b' 3 →
     Z.land c 3 = Z.land c' 3 → Z.land d 3 = Z.land d' 3 →
     extract_pixel_value [a; b; c; d] = extract_pixel_value [a'; b'; c'; d']).
Proof.
  intros Hc Hc' Hs Hsz _. split.
  - destruct (decode_encode camul_data secret_data Hc Hs)
      as (h1 & e1 & Hh1 & He1 & Hsz1 & Hwf1 & Hpx1).
    destruct (decode_encode camul_data' secret_data Hc' Hs)
      as (h2 & e2 & Hh2 & He2 & Hsz2 & Hwf2 & Hpx2).
    exists e1. rewrite Hh1, Hh2. cbn [mbind option_bind].
    split; [done|]. rewrite He2. f_equal.
    rewrite <-Hsz in Hsz2, Hpx2.
    apply image_ext.
    + congruence.
    + apply Hwf2.
    + apply Hwf1.
    + rewrite Hsz2. cbn [fst snd]. intros x y Hx Hy.
      by rewrite Hpx1, Hpx2.
  - intros a b c d a' b' c' d'. rewrite !land_3_mod, !extract_pixel_value_four.
    by intros -> -> -> ->.
Qed.

Lemma carrier_independence_witness :
  wf_image sample_camul ∧ wf_image sample_camul' ∧ wf_image sample_secret ∧
  size sample_camul = size sample_camul' ∧
  ∃ extracted,
    hide_image sample_camul sample_secret ≫= extract_image = Some extracted ∧
    hide_image sample_camul' sample_secret ≫= extract_image = Some extracted.
Proof.
  assert (wf_image sample_camul) as Hc by solve_wf.
  assert (wf_image sample_camul') as Hc' by solve_wf.
  assert (wf_image sample_secret) as Hs by solve_wf.
  split; [exact Hc|]. split; [exact Hc'|]. split; [exact Hs|].
  split; [reflexivity|].
  refine (proj1 (carrier_independence sample_camul sample_camul' sample_secret
                   Hc Hc' Hs eq_refl _)).
  intros [[|x] [|y]] p p'; cbn; intros Hp Hp'; try discriminate.
  injection Hp as <-. injection Hp' as <-. cbn. repeat split.
Defined.

(** C7, as stated, fails: a carrier of size 2x1 and a secret of size 1x1 give
    an image of size 2x2, not 4x2. *)
Lemma hide_size_not_twice_camul :
  wf_image wide_camul ∧ wf_image sample_secret ∧
  ∃ hidden,
    hide_image wide_camul sample_secret = Some hidden ∧
    size hidden ≠ (2 * (size wide_camul).1, 2 * (size wide_camul).2).
Proof.
  split; [solve_wf|]. split; [solve_wf|].
  eexists. split; [reflexivity|]. cbn. intros [=].
Qed.

(** C7, amended. For every carrier image and every secret image at least as
    wide and as tall as the carrier, the image produced by hiding has twice
    the width and twice the height of the carrier. *)
Theorem hide_size_twice_camul (camul_data secret_data : Image) :
  wf_image camul_data → wf_image secret_data →
  (size camul_data).1 ≤ (size secret_data).1 →
  (size camul_data).2 ≤ (size secret_data).2 →
  ∃ hidden,
    hide_image camul_data secret_data = Some hidden ∧
    size hidden = (2 * (size camul_data).1, 2 * (size camul_data).2).
Proof.
  intros Hc Hs Hx Hy.
  destruct (hide_image_spec camul_data secret_data Hc Hs)
    as (hidden & Hrun & Hsz & _).
  exists hidden. split; [done|].
  by rewrite Hsz, !Nat.min_l.
Qed.

Lemma hide_size_twice_camul_witness :
  wf_image sample_camul ∧ wf_image sample_secret ∧
  (size sample_camul).1 ≤ (size sample_secret).1 ∧
  (size sample_camul).2 ≤ (size sample_secret).2 ∧
  ∃ hidden,
    hide_image sample_camul sample_secret = Some hidden ∧ size hidden = (2, 2).
Proof.
  assert (wf_image sample_camul) as Hc by solve_wf.
  assert (wf_image sample_secret) as Hs by solve_wf.
  split; [exact Hc|]. split; [exact Hs|].
  split; [apply le_n|]. split; [apply le_n|].
  exact (hide_size_twice_camul sample_camul sample_secret Hc Hs (le_n 1) (le_n 1)).
Defined.

(** C8. Block protocol: hiding succeeds and, for every data coordinate
    [(i, j)] of the overlap, the hidden image holds at [(2i, 2j)],
    [(2i+1, 2j)], [(2i, 2j+1)], [(2i+1, 2j+1)] the merged tuples of groups 0,
    1, 2, 3; extracting succeeds and every pixel [(i, j)] of its result is the
    extraction of the pixels at those four places, read in that order. *)
Theorem block_protocol (camul_data secret_data hidden : Image) :
  wf_image camul_data → wf_image secret_data → wf_image hidden →
  (∃ out,
     hide_image camul_data secret_data = Some out ∧
     ∀ i j, i < Nat.min (size camul_data).1 (size secret_data).1 →
            j < Nat.min (size camul_data).2 (size secret_data).2 →
            block_written camul_data secret_data out i j) ∧
  (∃ out,
     extract_image hidden = Some out ∧
     ∀ i j, i < (size hidden).1 / 2 → j < (size hidden).2 / 2 →
            block_read hidden out i j).
Proof.
  intros Hc Hs Hh. split.
  - destruct (hide_image_spec camul_data secret_data Hc Hs)
      as (out & ? & _ & _ & ?).
    by exists out.
  - destruct (extract_image_spec hidden) as (out & ? & _ & _ & ?); [apply Hh|].
    by exists out.
Qed.

Lemma block_protocol_witness :
  wf_image sample_camul ∧ wf_image sample_secret ∧ wf_image sample_hidden ∧
  (∃ out,
     hide_image sample_camul sample_secret = Some out ∧
     block_written sample_camul sample_secret out 0 0) ∧
  (∃ out,
     extract_image sample_hidden = Some out ∧
     block_read sample_hidden out 0 0).
Proof.
  assert (wf_image sample_camul) as Hc by solve_wf.
  assert (wf_image sample_secret) as Hs by solve_wf.
  assert (wf_image sample_hidden) as Hh by solve_wf.
  split; [exact Hc|]. split; [exact Hs|]. split; [exact Hh|].
  destruct (block_protocol sample_camul sample_secret sample_hidden Hc Hs Hh)
    as [(o1 & Ho1 & Hb1) (o2 & Ho2 & Hb2)].
  split.
  - exists o1. split; [exact Ho1|]. apply Hb1; cbn; lia.
  - exists o2. split; [exact Ho2|]. apply Hb2; cbn; lia.
Defined.

(** ** The command line *)

Lemma main_stops_at_subscript (args : Namespace) (w : World) :
  lower (method args) = "hide"%string → secret args = None →
  main args w = (inl (Raised TypeError), w).
Proof.
  intros Hm Hs. unfold main. rewrite Hm, Hs. reflexivity.
Qed.

(** The message of lines 114-116 is never written: whenever the method is
    [hide], line 108 has either raised or made [args.secret] a string. *)
Lemma main_hide_continues_with_secret (args : Namespace) (w : World) (r : ())
    (w' : World) :
  lower (method args) = "hide"%string → main args w = (inr r, w') →
  is_Some (secret args).
Proof.
  intros Hm Hrun. destruct (secret args) as [s|] eqn:Hs; [by eexists|].
  by rewrite main_stops_at_subscript in Hrun.
Qed.

Section keeping_files.
Context {A B : Type}.
Implicit Types (m : Run A) (f : A → Run B) (body : Run ()).

Lemma keeps_files_ret (a : A) : keeps_files (mret a).
Proof. by intros w. Qed.

Lemma keeps_files_raise (e : exception) : keeps_files (@raise A e).
Proof. by intros w. Qed.

Lemma keeps_files_sys_exit (status : Z) : keeps_files (@sys_exit A status).
Proof. by intros w. Qed.

Lemma keeps_files_bind m f :
  keeps_files m → (∀ a, keeps_files (f a)) → keeps_files (m ≫= f).
Proof.
  intros Hm Hf w. unfold mbind, Run_bind. specialize (Hm w).
  destruct (m w) as [[e|a] w']; cbn in *; [done|].
  by rewrite Hf.
Qed.

Lemma stops_keeping_files_bind m f w :
  keeps_files m →
  (∀ a w', files w' = files w → stops_keeping_files (f a) w') →
  stops_keeping_files (m ≫= f) w.
Proof.
  intros Hm Hf. unfold stops_keeping_files, mbind, Run_bind.
  specialize (Hm w). destruct (m w) as [[e|a] w']; cbn in *; [by eauto|].
  destruct (Hf a w' Hm) as (e & w'' & -> & Hw''). exists e, w''.
  split; [done|congruence].
Qed.
End keeping_files.

Lemma keeps_files_stderr_write (s : string) : keeps_files (stderr_write s).
Proof. by intros w. Qed.

Lemma keeps_files_os_path_exists (path : string) :
  keeps_files (os_path_exists path).
Proof. by intros w. Qed.

Lemma keeps_files_os_path_isfile (path : string) :
  keeps_files (os_path_isfile path).
Proof. by intros w. Qed.

Lemma keeps_files_when (c : bool) (body : Run ()) :
  keeps_files body → keeps_files (when c body).
Proof. intros Hb. destruct c; [done|by intros w]. Qed.

Lemma keeps_files_subscript0 (o : option string) : keeps_files (subscript0 o).
Proof. by destruct o; intros w. Qed.

Lemma keeps_files_as_path (o : option string) : keeps_files (as_path o).
Proof. by destruct o; intros w. Qed.

Create HintDb keeps_files.
#[global] Hint Resolve keeps_files_ret keeps_files_raise keeps_files_sys_exit
  keeps_files_stderr_write keeps_files_os_path_exists
  keeps_files_os_path_isfile keeps_files_when keeps_files_subscript0
  keeps_files_as_path : keeps_files.
#[global] Hint Extern 2 (keeps_files (_ ≫= _)) =>
  apply keeps_files_bind; [|intros ?] : keeps_files.
#[global] Hint Extern 3 (keeps_files (if ?c then _ else _)) =>
  destruct c : keeps_files.

(** The check of line 127 on a path that exists. *)
Lemma output_check_stops (o : string) (rest : Run ()) (w : World) :
  is_Some (files w !! o) →
  stops_keeping_files
    ((output_exists ← os_path_exists o;
      when output_exists
        (stderr_write ("Error: " +:+ o +:+ " already exists");; sys_exit 1));;
     rest) w.
Proof.
  intros Hex. unfold stops_keeping_files, mbind, Run_bind, os_path_exists.
  rewrite (bool_decide_eq_true_2 _ Hex). cbn. eauto.
Qed.

(** With [--output] naming an existing path, no run returns normally and
    every run leaves the file system as it was. *)
Lemma main_explicit_output_stops (args : Namespace) (w : World) (o : string) :
  output args = Some o → is_Some (files w !! o) →
  stops_keeping_files (main args) w.
Proof.
  intros Ho Hex. unfold main. rewrite Ho.
  do 7 (apply stops_keeping_files_bind; [auto 10 with keeps_files|];
        intros ? ? ?).
  apply output_check_stops. congruence.
Qed.

(** Inside [main], a run with method [hide] (in any letter case) and no
    [--secret] stops at line 108 with an uncaught [TypeError], whatever the
    other arguments and the file system are: [main] itself writes nothing to
    [stderr] and [sys.exit(1)] is not reached. *)
Theorem main_hide_without_secret_raises (args : Namespace) (w : World) :
  lower (method args) = "hide"%string → secret args = None →
  ∃ w', main args w = (inl (Raised TypeError), w') ∧ stderr w' = stderr w.
Proof.
  intros Hm Hs. exists w. by rewrite main_stops_at_subscript.
Qed.

Lemma main_hide_without_secret_raises_witness :
  lower "Hide" = "hide"%string ∧
  ∃ w', main (mkNamespace "Hide" "enc.png" None None) sample_world =
          (inl (Raised TypeError), w') ∧
        stderr w' = ""%string.
Proof.
  split; [reflexivity|].
  exact (main_hide_without_secret_raises
           (mkNamespace "Hide" "enc.png" None None) sample_world
           eq_refl eq_refl).
Defined.

(** C10. A run of [extract] with no [--output], in a directory that already
    holds [extracted.png]: the file is replaced by the extracted image, the
    program prints [extracted.png generated] and returns normally, with
    nothing on [stderr]. *)
Theorem main_default_output_overwrites :
  files sample_world !! "extracted.png"%string =
    Some (RegularFile (Some old_extracted)) ∧
  main (mkNamespace "extract" "enc.png" None None) sample_world =
    (inr (),
     mkWorld (<["extracted.png"%string := RegularFile (Some sample_secret)]>
                sample_files)
             ["extracted.png generated"%string] "").
Proof. split; vm_compute; reflexivity. Qed.

(** The same directory with [--output extracted.png] given: the check of
    line 127 stops the run and the file is kept. *)
Example main_explicit_output_kept :
  main (mkNamespace "extract" "enc.png" None (Some "extracted.png"%string))
       sample_world =
    (inl (SystemExit 1),
     mkWorld sample_files [] "Error: extracted.png already exists").
Proof. vm_compute. reflexivity. Qed.

(** * Further properties of the code *)

(** ** The bit primitives on arbitrary Python integers *)

Lemma group_of_low_byte (v k : Z) :
  (k = 0 ∨ k = 2 ∨ k = 4 ∨ k = 6)%Z →
  (Z.shiftr (v `mod` 256) k `mod` 4 = Z.shiftr v k `mod` 4)%Z.
Proof.
  intros Hk. rewrite !Z.shiftr_div_pow2 by lia.
  destruct Hk as [-> | [-> | [-> | ->]]];
    [change (2 ^ 0)%Z with 1%Z | change (2 ^ 2)%Z with 4%Z
     | change (2 ^ 4)%Z with 16%Z | change (2 ^ 6)%Z with 64%Z];
    Z.div_mod_to_equations; lia.
Qed.

(** X1. [get_2bit_groups] never fails and never leaves [0,3]: for every
    integer, negative or above 255 too, it yields four values in [0,3], and
    they are the groups of the low byte [v % 256]. *)
Theorem get_2bit_groups_any_integer (v : Z) :
  length (get_2bit_groups v) = 4 ∧
  Forall (λ g, 0 ≤ g ≤ 3)%Z (get_2bit_groups v) ∧
  get_2bit_groups v = get_2bit_groups (v `mod` 256).
Proof.
  rewrite !get_2bit_groups_mod. split; [done|]. split.
  - repeat constructor; apply mod4_bounds.
  - rewrite !group_of_low_byte by lia.
    by rewrite <-(Z.shiftr_0_r (v `mod` 256)), group_of_low_byte,
      Z.shiftr_0_r by lia.
Qed.

(** X2. The four values [merge_pixel_value] returns stay within 3 of the
    carrier value, for all integers: each lies between the carrier with its
    two low bits cleared and that plus 3. *)
Theorem merge_pixel_value_distortion (c s : Z) :
  Forall (λ v, truncate_rightmost_2bits c ≤ v ≤ truncate_rightmost_2bits c + 3
               ∧ c - 3 ≤ v ≤ c + 3)%Z
         (merge_pixel_value c s).
Proof.
  rewrite merge_pixel_value_unfold, truncate_div.
  pose proof (mod4_bounds (Z.shiftr s 6)). pose proof (mod4_bounds (Z.shiftr s 4)).
  pose proof (mod4_bounds (Z.shiftr s 2)). pose proof (mod4_bounds s).
  pose proof (Z.div_mod c 4). pose proof (Z.mod_pos_bound c 4).
  repeat (apply List.Forall_cons; [lia|]). apply List.Forall_nil.
Qed.

(** X3. Merging then extracting gives the secret value modulo 256, whatever
    integers the carrier and the secret are: a secret outside [0,255] loses
    its high bits and raises nothing. *)
Theorem extract_merge_any_integer (c s : Z) :
  extract_pixel_value (merge_pixel_value c s) = Some (s `mod` 256)%Z.
Proof.
  rewrite merge_pixel_value_unfold, extract_pixel_value_four.
  rewrite !merged_value_mod by apply mod4_bounds.
  rewrite <-(group_of_low_byte s 6), <-(group_of_low_byte s 4),
    <-(group_of_low_byte s 2) by lia.
  replace (s `mod` 4)%Z with ((s `mod` 256) `mod` 4)%Z
    by (Z.div_mod_to_equations; lia).
  rewrite byte_of_groups; [done|].
  pose proof (Z.mod_pos_bound s 256). unfold uint8. lia.
Qed.

Lemma extract_fold_bounds (l : list Z) (acc : Z) (n : nat) :
  (0 ≤ acc < 4 ^ Z.of_nat n)%Z →
  (0 ≤ fold_left (λ secret_value value, Z.shiftl secret_value 2 + value)
         ((λ cv, cv `mod` Z.shiftl 1 2) <$> l) acc
   < 4 ^ Z.of_nat (n + length l))%Z.
Proof.
  revert acc n. induction l as [|a l IH]; intros acc n Hacc; cbn [fmap list_fmap fold_left length].
  - by rewrite Nat.add_0_r.
  - replace (n + S (length l)) with (S n + length l) by lia.
    apply IH. rewrite Z.shiftl_mul_pow2 by lia.
    change (Z.shiftl 1 2) with 4%Z. change (2 ^ 2)%Z with 4%Z.
    rewrite Nat2Z.inj_succ, Z.pow_succ_r by lia.
    pose proof (mod4_bounds a). lia.
Qed.

(** X4. [extract_pixel_value] raises on an empty list and on nothing else;
    on [n >= 1] integers it returns a value in [0, 4^n), so on four inputs
    always a byte. *)
Theorem extract_pixel_value_domain :
  extract_pixel_value [] = None ∧
  ∀ (a : Z) (l : list Z),
    ∃ v, extract_pixel_value (a :: l) = Some v ∧
         (0 ≤ v < 4 ^ Z.of_nat (length (a :: l)))%Z.
Proof.
  split; [done|]. intros a l. unfold extract_pixel_value.
  cbn [fmap list_fmap lookup list_lookup mbind option_bind drop length].
  eexists. split; [done|].
  apply (extract_fold_bounds l _ 1).
  change (Z.shiftl 1 2) with 4%Z. pose proof (mod4_bounds a).
  change (4 ^ Z.of_nat 1)%Z with 4%Z. lia.
Qed.

(** ** The grid transforms, pixel by pixel *)

Lemma parity_cases (x : nat) :
  (x `mod` 2 = 0 ∧ x = 2 * (x / 2)) ∨ (x `mod` 2 = 1 ∧ x = 2 * (x / 2) + 1).
Proof.
  pose proof (Nat.div_mod_eq x 2).
  pose proof (Nat.mod_upper_bound x 2). lia.
Qed.

(** Every pixel of the hidden image, by its own coordinates. *)
Lemma hide_image_pixel (camul_data secret_data : Image) :
  wf_image camul_data → wf_image secret_data →
  ∃ hidden,
    hide_image camul_data secret_data = Some hidden ∧
    size hidden = (2 * Nat.min (size camul_data).1 (size secret_data).1,
                   2 * Nat.min (size camul_data).2 (size secret_data).2) ∧
    wf_image hidden ∧
    ∀ x y, x < 2 * Nat.min (size camul_data).1 (size secret_data).1 →
           y < 2 * Nat.min (size camul_data).2 (size secret_data).2 →
           ∃ p q v,
             getpixel camul_data (x / 2, y / 2) = Some p ∧
             getpixel secret_data (x / 2, y / 2) = Some q ∧
             merged_pixel p q (x `mod` 2 + 2 * (y `mod` 2)) = Some v ∧
             getpixel hidden (x, y) = Some v.
Proof.
  intros Hc Hs.
  destruct (hide_image_spec camul_data secret_data Hc Hs)
    as (hidden & Hrun & Hsz & Hwf & Hblk).
  exists hidden. do 3 (split; [done|]). intros x y Hx Hy.
  destruct (Hblk (x / 2) (y / 2))
    as (p & q & v0 & v1 & v2 & v3 & Hp & Hq & M0 & M1 & M2 & M3 & G0 & G1 & G2 & G3).
  { apply Nat.Div0.div_lt_upper_bound. lia. }
  { apply Nat.Div0.div_lt_upper_bound. lia. }
  exists p, q.
  destruct (parity_cases x) as [[Mx Ex] | [Mx Ex]],
    (parity_cases y) as [[My Ey] | [My Ey]];
    rewrite Mx, My; cbn [Nat.add Nat.mul];
    [exists v0 | exists v2 | exists v1 | exists v3];
    do 3 (split; [done|]); congruence.
Qed.

Lemma near_merged_value (c s v : Z) (k : nat) :
  uint8 c → merge_pixel_value c s !! k = Some v → near_value c v.
Proof.
  intros Hc Hv.
  assert (k < 4) as Hk.
  { apply lookup_lt_Some in Hv. by rewrite merge_pixel_value_unfold in Hv. }
  destruct (merge_pixel_value_lookup c s k Hk) as (g & Hg & Hl).
  rewrite Hl in Hv. simplify_eq. split.
  - rewrite !land_252_truncate, merged_value_truncate;
      [done|done|done|by apply merged_value_bounds].
  - rewrite truncate_div.
    pose proof (Z.div_mod c 4). pose proof (Z.mod_pos_bound c 4). lia.
Qed.

Lemma near_merged_pixel (p q v : pixel) (k : nat) :
  uint8_pixel p → merged_pixel p q k = Some v → near_pixel p v.
Proof.
  intros (Hr & Hg & Hb) Hv. apply triple_at_inv in Hv as (Vr & Vg & Vb).
  repeat split; by eapply near_merged_value.
Qed.

(** X5. Hiding in a carrier a secret of another size and extracting again
    gives the part of the secret that overlaps the carrier: an image of size
    (min(Cw,Sw), min(Ch,Sh)) whose pixels are those of the secret. *)
Theorem hide_extract_overlap (camul_data secret_data : Image) :
  wf_image camul_data → wf_image secret_data →
  ∃ extracted,
    hide_image camul_data secret_data ≫= extract_image = Some extracted ∧
    size extracted = (Nat.min (size camul_data).1 (size secret_data).1,
                      Nat.min (size camul_data).2 (size secret_data).2) ∧
    ∀ x y, x < Nat.min (size camul_data).1 (size secret_data).1 →
           y < Nat.min (size camul_data).2 (size secret_data).2 →
           is_Some (getpixel secret_data (x, y)) ∧
           getpixel extracted (x, y) = getpixel secret_data (x, y).
Proof.
  intros Hc Hs.
  destruct (decode_encode camul_data secret_data Hc Hs)
    as (hidden & extracted & Hhide & Hext & Hsz & Hwf & Hpx).
  exists extracted. rewrite Hhide. cbn [mbind option_bind].
  do 2 (split; [done|]). intros x y Hx Hy. split; [|by apply Hpx].
  apply getpixel_is_Some; [apply Hs|]. unfold in_image. cbn. lia.
Qed.

Lemma hide_extract_overlap_witness :
  wf_image wide_camul ∧ wf_image sample_secret ∧
  ∃ extracted,
    hide_image wide_camul sample_secret ≫= extract_image = Some extracted ∧
    size extracted = (1, 1) ∧
    getpixel extracted (0, 0) = getpixel sample_secret (0, 0).
Proof.
  assert (wf_image wide_camul) as Hc by solve_wf.
  assert (wf_image sample_secret) as Hs by solve_wf.
  split; [exact Hc|]. split; [exact Hs|].
  destruct (hide_extract_overlap wide_camul sample_secret Hc Hs)
    as (extracted & Hrun & Hsz & Hpx).
  exists extracted. split; [exact Hrun|]. split; [exact Hsz|].
  apply Hpx; cbn; lia.
Defined.

(** X6. The hidden image looks like the carrier enlarged twice: its pixel at
    [(x, y)] has, in every band, the top six bits of the carrier pixel at
    [(x // 2, y // 2)] and differs from it by at most 3. *)
Theorem hidden_near_camul (camul_data secret_data : Image) :
  wf_image camul_data → wf_image secret_data →
  ∃ hidden,
    hide_image camul_data secret_data = Some hidden ∧
    ∀ x y, in_image hidden (x, y) →
           ∃ p v, getpixel camul_data (x / 2, y / 2) = Some p ∧
                  getpixel hidden (x, y) = Some v ∧ near_pixel p v.
Proof.
  intros Hc Hs.
  destruct (hide_image_pixel camul_data secret_data Hc Hs)
    as (hidden & Hrun & Hsz & Hwf & Hpx).
  exists hidden. split; [done|]. intros x y [Hx Hy].
  rewrite Hsz in Hx, Hy. cbn [fst snd] in Hx, Hy.
  destruct (Hpx x y Hx Hy) as (p & q & v & Hp & Hq & Hm & Hv).
  exists p, v. do 2 (split; [done|]).
  eapply near_merged_pixel; [|done].
  by apply (getpixel_uint8 camul_data (x / 2, y / 2)).
Qed.

Lemma hidden_near_camul_witness :
  wf_image sample_camul ∧ wf_image sample_secret ∧
  ∃ hidden,
    hide_image sample_camul sample_secret = Some hidden ∧
    ∃ p v, getpixel sample_camul (0, 0) = Some p ∧
           getpixel hidden (1, 1) = Some v ∧ near_pixel p v.
Proof.
  assert (wf_image sample_camul) as Hc by solve_wf.
  assert (wf_image sample_secret) as Hs by solve_wf.
  split; [exact Hc|]. split; [exact Hs|].
  destruct (hidden_near_camul sample_camul sample_secret Hc Hs)
    as (hidden & Hrun & Hpx).
  exists hidden. split; [exact Hrun|].
  apply (Hpx 1 1). unfold in_image.
  injection Hrun as <-. cbn. lia.
Defined.

Lemma merged_pixel_top_bits (p p' q : pixel) (k : nat) :
  same_top_bits p p' → merged_pixel p q k = merged_pixel p' q k.
Proof.
  intros (Hr & Hg & Hb). unfold merged_pixel, merge_pixel_value.
  by rewrite Hr, Hg, Hb.
Qed.

(** X7. The hidden image is determined by the size of the overlap, the top
    six bits of the carrier pixels in the overlap and the secret pixels in
    the overlap: the carrier's two low bits and everything outside the
    overlap are not used. *)
Theorem hide_image_uses (camul_data camul_data' secret_data secret_data' : Image) :
  wf_image camul_data → wf_image camul_data' →
  wf_image secret_data → wf_image secret_data' →
  Nat.min (size camul_data').1 (size secret_data').1 =
    Nat.min (size camul_data).1 (size secret_data).1 →
  Nat.min (size camul_data').2 (size secret_data').2 =
    Nat.min (size camul_data).2 (size secret_data).2 →
  (∀ i j p p',
     i < Nat.min (size camul_data).1 (size secret_data).1 →
     j < Nat.min (size camul_data).2 (size secret_data).2 →
     getpixel camul_data (i, j) = Some p →
     getpixel camul_data' (i, j) = Some p' → same_top_bits p p') →
  (∀ i j,
     i < Nat.min (size camul_data).1 (size secret_data).1 →
     j < Nat.min (size camul_data).2 (size secret_data).2 →
     getpixel secret_data (i, j) = getpixel secret_data' (i, j)) →
  is_Some (hide_image camul_data secret_data) ∧
  hide_image camul_data secret_data = hide_image camul_data' secret_data'.
Proof.
  intros Hc Hc' Hs Hs' HX HY Hcam Hsec.
  destruct (hide_image_pixel camul_data secret_data Hc Hs)
    as (h1 & Hrun1 & Hsz1 & Hwf1 & Hpx1).
  destruct (hide_image_pixel camul_data' secret_data' Hc' Hs')
    as (h2 & Hrun2 & Hsz2 & Hwf2 & Hpx2).
  rewrite HX, HY in Hsz2, Hpx2.
  rewrite Hrun1, Hrun2. split; [by eexists|]. f_equal.
  apply image_ext; [congruence|apply Hwf1|apply Hwf2|].
  rewrite Hsz1. cbn [fst snd]. intros x y Hx Hy.
  destruct (Hpx1 x y Hx Hy) as (p & q & v & Hp & Hq & Hm & ->).
  destruct (Hpx2 x y Hx Hy) as (p' & q' & v' & Hp' & Hq' & Hm' & ->).
  assert (x / 2 < Nat.min (size camul_data).1 (size secret_data).1)
    by (apply Nat.Div0.div_lt_upper_bound; lia).
  assert (y / 2 < Nat.min (size camul_data).2 (size secret_data).2)
    by (apply Nat.Div0.div_lt_upper_bound; lia).
  rewrite Hsec in Hq by done. rewrite Hq in Hq'. simplify_eq.
  rewrite <-Hm, <-Hm'. apply merged_pixel_top_bits. by eapply Hcam.
Qed.

Lemma hide_image_uses_witness :
  wf_image sample_camul ∧ wf_image sample_secret ∧
  hide_image sample_camul sample_secret =
  hide_image (mkImage (2, 1) [RGB 203 9 6; RGB 0 0 0]) sample_secret.
Proof.
  assert (wf_image sample_camul) as Hc by solve_wf.
  assert (wf_image (mkImage (2, 1) [RGB 203 9 6; RGB 0 0 0])) as Hc'
    by solve_wf.
  assert (wf_image sample_secret) as Hs by solve_wf.
  split; [exact Hc|]. split; [exact Hs|].
  refine (proj2 (hide_image_uses sample_camul
                   (mkImage (2, 1) [RGB 203 9 6; RGB 0 0 0])
                   sample_secret sample_secret Hc Hc' Hs Hs
                   eq_refl eq_refl _ _)).
  - intros [|i] [|j] p p'; cbn; intros Hi Hj Hp Hp'; try lia.
    injection Hp as <-. injection Hp' as <-. repeat split.
  - reflexivity.
Defined.

(** X8. [extract_image] reads only the two low bits of the pixels in the
    even-sized top-left part of its input: two images with the same halved
    size that agree there in the two low bits of every band give the same
    extracted image, so a last odd row or column and all top bits are
    ignored. *)
Theorem extract_image_uses (camul_data camul_data' : Image) :
  length (data camul_data) = (size camul_data).1 * (size camul_data).2 →
  length (data camul_data') = (size camul_data').1 * (size camul_data').2 →
  (size camul_data').1 / 2 = (size camul_data).1 / 2 →
  (size camul_data').2 / 2 = (size camul_data).2 / 2 →
  (∀ x y p p',
     x < 2 * ((size camul_data).1 / 2) → y < 2 * ((size camul_data).2 / 2) →
     getpixel camul_data (x, y) = Some p →
     getpixel camul_data' (x, y) = Some p' → same_low_bits p p') →
  is_Some (extract_image camul_data) ∧
  extract_image camul_data = extract_image camul_data'.
Proof.
  intros Hl Hl' HX HY Hlow.
  destruct (extract_image_spec camul_data Hl) as (d1 & Hrun1 & Hsz1 & Hwf1 & Hrd1).
  destruct (extract_image_spec camul_data' Hl')
    as (d2 & Hrun2 & Hsz2 & Hwf2 & Hrd2).
  rewrite HX, HY in Hsz2, Hrd2.
  rewrite Hrun1, Hrun2. split; [by eexists|]. f_equal.
  apply image_ext; [congruence|apply Hwf1|apply Hwf2|].
  rewrite Hsz1. cbn [fst snd]. intros i j Hi Hj.
  destruct (Hrd1 i j Hi Hj)
    as (p1 & p2 & p3 & p4 & qr & qg & qb & G1 & G2 & G3 & G4 & Er & Eg & Eb & ->).
  destruct (Hrd2 i j Hi Hj)
    as (p1' & p2' & p3' & p4' & qr' & qg' & qb' &
        G1' & G2' & G3' & G4' & Er' & Eg' & Eb' & ->).
  destruct (Hlow (2 * i) (2 * j) p1 p1' ltac:(lia) ltac:(lia) G1 G1')
    as (R1 & V1 & B1).
  destruct (Hlow (2 * i + 1) (2 * j) p2 p2' ltac:(lia) ltac:(lia) G2 G2')
    as (R2 & V2 & B2).
  destruct (Hlow (2 * i) (2 * j + 1) p3 p3' ltac:(lia) ltac:(lia) G3 G3')
    as (R3 & V3 & B3).
  destruct (Hlow (2 * i + 1) (2 * j + 1) p4 p4' ltac:(lia) ltac:(lia) G4 G4')
    as (R4 & V4 & B4).
  rewrite extract_pixel_value_four in Er, Eg, Eb, Er', Eg', Eb'.
  simplify_eq. do 2 f_equal; congruence.
Qed.

Lemma extract_image_uses_witness :
  extract_image sample_hidden =
  extract_image
    (mkImage (3, 2) [RGB 1 7 0; RGB 4 3 128; RGB 9 9 9;
                     RGB 255 254 0; RGB 5 2 253; RGB 9 9 9]).
Proof.
  refine (proj2 (extract_image_uses sample_hidden
    (mkImage (3, 2) [RGB 1 7 0; RGB 4 3 128; RGB 9 9 9;
                     RGB 255 254 0; RGB 5 2 253; RGB 9 9 9])
    eq_refl eq_refl eq_refl eq_refl _)).
  intros [|[|x]] [|[|y]] p p'; cbn; intros Hx Hy Hp Hp'; try lia;
    injection Hp as <-; injection Hp' as <-; repeat split.
Defined.

(** X9. Both transforms return images as Pillow holds them: from images with
    a full buffer of bytes, [hide_image] returns an image whose buffer is
    full (width times height pixels) and whose channel values are all in
    [0,255]; [extract_image] does so even when the channel values of its
    input are arbitrary integers. *)
Theorem transforms_return_images (camul_data secret_data hidden : Image) :
  wf_image camul_data → wf_image secret_data →
  length (data hidden) = (size hidden).1 * (size hidden).2 →
  (∃ out, hide_image camul_data secret_data = Some out ∧ wf_image out) ∧
  (∃ out, extract_image hidden = Some out ∧ wf_image out).
Proof.
  intros Hc Hs Hh. split.
  - destruct (hide_image_spec camul_data secret_data Hc Hs)
      as (out & ? & _ & ? & _).
    by exists out.
  - destruct (extract_image_spec hidden Hh) as (out & ? & _ & ? & _).
    by exists out.
Qed.

Lemma transforms_return_images_witness :
  wf_image wide_camul ∧ wf_image sample_secret ∧
  (∃ out, hide_image wide_camul sample_secret = Some out ∧ wf_image out) ∧
  (∃ out, extract_image (mkImage (2, 2)
             [RGB (-1) 300 4; RGB 1000 11 4; RGB 203 (-10) 4; RGB 201 10 5])
          = Some out ∧ wf_image out).
Proof.
  assert (wf_image wide_camul) as Hc by solve_wf.
  assert (wf_image sample_secret) as Hs by solve_wf.
  split; [exact Hc|]. split; [exact Hs|].
  exact (transforms_return_images wide_camul sample_secret
           (mkImage (2, 2)
             [RGB (-1) 300 4; RGB 1000 11 4; RGB 203 (-10) 4; RGB 201 10 5])
           Hc Hs eq_refl).
Defined.

Lemma for_each_skip {St : Type} (l : list nat) (s : St) :
  for_each l (λ _ s, Some s) s = Some s.
Proof. induction l as [|i l IH]; [done|]. cbn. apply IH. Qed.

(** X10. With nothing to process the transforms read no pixel and return an
    image with an empty buffer: [hide_image] when the overlap of carrier and
    secret has width or height 0, [extract_image] when its input is less
    than 2 wide or less than 2 high.  This holds for any buffers, full or
    not. *)
Theorem empty_transforms (camul_data secret_data : Image) :
  (Nat.min (size camul_data).1 (size secret_data).1 = 0 ∨
   Nat.min (size camul_data).2 (size secret_data).2 = 0 →
   hide_image camul_data secret_data =
   Some (mkImage (2 * Nat.min (size camul_data).1 (size secret_data).1,
                  2 * Nat.min (size camul_data).2 (size secret_data).2) [])) ∧
  ((size camul_data).1 < 2 ∨ (size camul_data).2 < 2 →
   extract_image camul_data =
   Some (mkImage ((size camul_data).1 / 2, (size camul_data).2 / 2) [])).
Proof.
  split.
  - unfold hide_image.
    destruct (size camul_data) as [cxs cys], (size secret_data) as [sxs sys].
    cbn [fst snd]. intros [-> | ->].
    + done.
    + cbn [seq for_each]. rewrite for_each_skip. unfold Image_new.
      cbn [fst snd]. by rewrite Nat.mul_0_r, Nat.mul_0_r.
  - unfold extract_image. destruct (size camul_data) as [cxs cys].
    cbn [fst snd]. intros [H | H].
    + rewrite (Nat.div_small cxs 2) by done. done.
    + rewrite (Nat.div_small cys 2) by done.
      cbn [seq for_each]. rewrite for_each_skip. unfold Image_new.
      cbn [fst snd]. by rewrite Nat.mul_0_r.
Qed.

Lemma empty_transforms_witness :
  hide_image (mkImage (0, 5) []) sample_secret = Some (mkImage (0, 2) []) ∧
  extract_image (mkImage (1, 4) [RGB 1 2 3; RGB 4 5 6; RGB 7 8 9; RGB 0 0 0])
    = Some (mkImage (0, 2) []).
Proof.
  split.
  - exact (proj1 (empty_transforms (mkImage (0, 5) []) sample_secret)
             (or_introl eq_refl)).
  - refine (proj2 (empty_transforms
             (mkImage (1, 4) [RGB 1 2 3; RGB 4 5 6; RGB 7 8 9; RGB 0 0 0])
             sample_secret) (or_introl _)).
    cbn. lia.
Defined.

(** ** Runs of [main] *)

Lemma isfile_test_true (w : World) (path : string) :
  is_regular_file w path →
  os_path_exists path w = (inr true, w) ∧ os_path_isfile path w = (inr true, w).
Proof.
  intros [c Hc]. unfold os_path_exists, os_path_isfile. rewrite Hc.
  split; [|done]. by rewrite bool_decide_eq_true_2.
Qed.

Lemma isfile_test_false (w : World) (path : string) :
  ¬ is_regular_file w path →
  ∃ e f, os_path_exists path w = (inr e, w) ∧
         os_path_isfile path w = (inr f, w) ∧ negb e || negb f = true.
Proof.
  intros Hn. unfold os_path_exists, os_path_isfile.
  destruct (files w !! path) as [[|c]|] eqn:E.
  - by exists true, false.
  - destruct Hn. by exists c.
  - exists false, false. split; [|done].
    rewrite bool_decide_eq_false_2; [done|]. by intros [? ?].
Qed.

(** X11. With a method that is neither [hide] nor [extract] in any letter
    case, [main] writes [Error: invalid method] to stderr and exits with
    status 1, whatever the other arguments are; no file is changed and
    nothing is printed. *)
Theorem main_invalid_method (args : Namespace) (w : World) :
  lower (method args) ≠ "hide"%string →
  lower (method args) ≠ "extract"%string →
  main args w = (inl (SystemExit 1), with_stderr w "Error: invalid method").
Proof.
  intros Hh He. unfold main.
  rewrite (bool_decide_eq_false_2 _ Hh).
  rewrite (bool_decide_eq_true_2 (lower (method args) ≠ "hide"%string)) by done.
  rewrite (bool_decide_eq_true_2 (lower (method args) ≠ "extract"%string)) by done.
  reflexivity.
Qed.

Lemma bind_step {A B : Type} (m : Run A) (f : A → Run B) (w w' : World) (a : A) :
  m w = (inr a, w') → (m ≫= f) w = f a w'.
Proof. intros H. unfold mbind, Run_bind. by rewrite H. Qed.

Lemma bind_stop {A B : Type} (m : Run A) (f : A → Run B) (w w' : World)
    (e : stop) :
  m w = (inl e, w') → (m ≫= f) w = (inl e, w').
Proof. intros H. unfold mbind, Run_bind. by rewrite H. Qed.

Lemma exists_test_fresh (w : World) (path : string) :
  files w !! path = None → os_path_exists path w = (inr false, w).
Proof.
  intros H. unfold os_path_exists. rewrite H.
  rewrite bool_decide_eq_false_2; [done|]. by intros [? ?].
Qed.

Lemma exists_test_present (w : World) (path : string) :
  is_Some (files w !! path) → os_path_exists path w = (inr true, w).
Proof. intros H. unfold os_path_exists. by rewrite bool_decide_eq_true_2. Qed.

Lemma regular_exists (w : World) (path : string) :
  is_regular_file w path → os_path_exists path w = (inr true, w).
Proof. apply isfile_test_true. Qed.

Lemma regular_isfile (w : World) (path : string) :
  is_regular_file w path → os_path_isfile path w = (inr true, w).
Proof. apply isfile_test_true. Qed.

(** The checks of lines 105-125 pass. *)
Ltac pass_checks :=
  repeat first
    [ erewrite bind_step by (apply regular_exists; eassumption)
    | erewrite bind_step by (apply regular_isfile; eassumption)
    | erewrite bind_step by reflexivity ].

(** X12. When the carrier path is missing or is not a regular file, and the
    method is [extract], or [hide] with a secret given, [main] writes
    [Error: <camul> doesn't exist or is not a file] to stderr and exits with
    status 1; no file is changed and nothing is printed. *)
Theorem main_camul_not_a_file (args : Namespace) (w : World) :
  lower (method args) = "extract"%string ∨
    (lower (method args) = "hide"%string ∧ is_Some (secret args)) →
  ¬ is_regular_file w (camul args) →
  main args w =
  (inl (SystemExit 1),
   with_stderr w
     ("Error: " +:+ camul args +:+ " doesn't exist or is not a file")).
Proof.
  intros Hvalid Hn.
  destruct (isfile_test_false w _ Hn) as (e & f & He & Hf & Hor).
  unfold main. destruct Hvalid as [Hm | [Hm [s Hs]]]; rewrite Hm, ?Hs.
  - rewrite (bool_decide_eq_false_2 ("extract" = "hide")%string) by done.
    cbv iota. do 3 erewrite bind_step by reflexivity.
    erewrite bind_step by exact He. erewrite bind_step by exact Hf.
    rewrite Hor. reflexivity.
  - rewrite (bool_decide_eq_true_2 ("hide" = "hide")%string) by done.
    cbv iota. do 3 erewrite bind_step by reflexivity.
    erewrite bind_step by exact He. erewrite bind_step by exact Hf.
    rewrite Hor. reflexivity.
Qed.

Lemma main_camul_not_a_file_witness :
  main (mkNamespace "EXTRACT" "missing.png" None None) sample_world =
  (inl (SystemExit 1),
   with_stderr sample_world
     "Error: missing.png doesn't exist or is not a file").
Proof.
  refine (main_camul_not_a_file
            (mkNamespace "EXTRACT" "missing.png" None None) sample_world
            (or_introl eq_refl) _).
  intros [c Hc]. vm_compute in Hc. discriminate Hc.
Defined.

(** X13. With method [hide], an existing carrier file and a secret path that
    is missing or is not a regular file, [main] writes
    [Error: <secret> doesn't exist or is not a file] to stderr and exits with
    status 1; no file is changed and nothing is printed. *)
Theorem main_secret_not_a_file (args : Namespace) (w : World) (s : string) :
  lower (method args) = "hide"%string → secret args = Some s →
  is_regular_file w (camul args) → ¬ is_regular_file w s →
  main args w =
  (inl (SystemExit 1),
   with_stderr w ("Error: " +:+ s +:+ " doesn't exist or is not a file")).
Proof.
  intros Hm Hs Hfile Hn.
  destruct (isfile_test_false w _ Hn) as (e & f & He & Hf & Hor).
  unfold main. rewrite Hm, Hs.
  rewrite (bool_decide_eq_true_2 ("hide" = "hide")%string) by done.
  cbv iota. pass_checks.
  erewrite bind_stop; [done|]. unfold when at 1.
  erewrite bind_step by reflexivity.
  erewrite bind_step by exact He. erewrite bind_step by exact Hf.
  rewrite Hor. reflexivity.
Qed.

Lemma main_secret_not_a_file_witness :
  main (mkNamespace "hide" "enc.png" (Some "nowhere.png"%string) None)
       sample_world =
  (inl (SystemExit 1),
   with_stderr sample_world
     "Error: nowhere.png doesn't exist or is not a file").
Proof.
  refine (main_secret_not_a_file
            (mkNamespace "hide" "enc.png" (Some "nowhere.png"%string) None)
            sample_world "nowhere.png" eq_refl eq_refl _ _).
  - eexists. vm_compute. reflexivity.
  - intros [c Hc]. vm_compute in Hc. discriminate Hc.
Defined.

(** X14. With [--output] naming a path that exists (a file or a directory)
    and inputs that pass the earlier checks, [main] writes
    [Error: <output> already exists] to stderr and exits with status 1
    before opening any image; no file is changed and nothing is printed. *)
Theorem main_existing_output_refused (args : Namespace) (w : World)
    (o : string) :
  lower (method args) = "extract"%string ∨
    (lower (method args) = "hide"%string ∧
     ∃ s, secret args = Some s ∧ is_regular_file w s) →
  is_regular_file w (camul args) →
  output args = Some o → is_Some (files w !! o) →
  main args w =
  (inl (SystemExit 1), with_stderr w ("Error: " +:+ o +:+ " already exists")).
Proof.
  intros Hvalid Hfile Ho Hex.
  unfold main. destruct Hvalid as [Hm | [Hm (s & Hs & Hsfile)]];
    rewrite Hm, Ho, ?Hs.
  - rewrite (bool_decide_eq_false_2 ("extract" = "hide")%string) by done.
    cbv iota. pass_checks.
    erewrite bind_stop; [done|].
    erewrite bind_step by (by apply exists_test_present). reflexivity.
  - rewrite (bool_decide_eq_true_2 ("hide" = "hide")%string) by done.
    cbv iota. pass_checks.
    erewrite bind_step;
      [|unfold when at 1; erewrite bind_step by reflexivity; by pass_checks].
    erewrite bind_stop; [done|].
    erewrite bind_step by (by apply exists_test_present). reflexivity.
Qed.

Lemma main_existing_output_refused_witness :
  main (mkNamespace "hide" "enc.png" (Some "extracted.png"%string)
          (Some "enc.png"%string)) sample_world =
  (inl (SystemExit 1),
   with_stderr sample_world "Error: enc.png already exists").
Proof.
  refine (main_existing_output_refused
            (mkNamespace "hide" "enc.png" (Some "extracted.png"%string)
               (Some "enc.png"%string))
            sample_world "enc.png" (or_intror (conj eq_refl _)) _ eq_refl _).
  - exists "extracted.png"%string. split; [reflexivity|].
    eexists. vm_compute. reflexivity.
  - eexists. vm_compute. reflexivity.
  - eexists. vm_compute. reflexivity.
Defined.

(** ** How [main] exits *)

Section exits.
Context {A B : Type}.
Implicit Types (m : Run A) (f : A → Run B).

Lemma quiet_ret (a : A) : quiet (mret a).
Proof. by intros w. Qed.

Lemma quiet_raise (e : exception) : quiet (@raise A e).
Proof. by intros w. Qed.

Lemma quiet_bind m f : quiet m → (∀ a, quiet (f a)) → quiet (m ≫= f).
Proof.
  intros Hm Hf w. unfold mbind, Run_bind. specialize (Hm w).
  destruct (m w) as [[[status|e]|a] w']; [done..|].
  subst w'. apply Hf.
Qed.

Lemma never_exits_ret (a : A) : never_exits (mret a).
Proof. by intros w status w'. Qed.

Lemma never_exits_raise (e : exception) : never_exits (@raise A e).
Proof. by intros w status w'. Qed.

Lemma never_exits_bind m f :
  never_exits m → (∀ a, never_exits (f a)) → never_exits (m ≫= f).
Proof.
  intros Hm Hf w status w'. unfold mbind, Run_bind. specialize (Hm w).
  destruct (m w) as [[e|a] w1]; [|apply Hf].
  intros [= -> ->]. by eapply Hm.
Qed.

Lemma never_exits_cleanly m : never_exits m → exits_cleanly m.
Proof. intros Hm w status w' H. by destruct (Hm w status w'). Qed.

Lemma exits_cleanly_bind m f :
  quiet m → (∀ a, exits_cleanly (f a)) → exits_cleanly (m ≫= f).
Proof.
  intros Hm Hf w status w'. unfold mbind, Run_bind. specialize (Hm w).
  destruct (m w) as [[[status1|e]|a] w1].
  - by intros [= <- <-].
  - done.
  - subst w1. apply Hf.
Qed.
End exits.

Lemma quiet_os_path_exists (path : string) : quiet (os_path_exists path).
Proof. by intros w. Qed.

Lemma quiet_os_path_isfile (path : string) : quiet (os_path_isfile path).
Proof. by intros w. Qed.

Lemma quiet_subscript0 (o : option string) : quiet (subscript0 o).
Proof. by destruct o; intros w. Qed.

Lemma quiet_as_path (o : option string) : quiet (as_path o).
Proof. by destruct o; intros w. Qed.

(** The shape of every error report of [main]. *)
Lemma quiet_report (c : bool) (msg : string) :
  quiet (when c (stderr_write ("Error: " +:+ msg);; sys_exit 1)).
Proof.
  intros w. destruct c; [|done]. cbn. repeat split. by exists msg.
Qed.

Lemma never_exits_Image_open (path : string) : never_exits (Image_open path).
Proof.
  intros w status w'. unfold Image_open.
  by destruct (files w !! path) as [[|[im|]]|].
Qed.

Lemma never_exits_from_option {A : Type} (o : option A) :
  never_exits (from_option o).
Proof. by destruct o; intros w status w'. Qed.

Lemma never_exits_Image_save (im : Image) (path : string) :
  never_exits (Image_save im path).
Proof.
  intros w status w'. unfold Image_save. case_bool_decide; [|done].
  by destruct (files w !! path) as [[|c]|].
Qed.

Lemma never_exits_print (s : string) : never_exits (print s).
Proof. by intros w status w'. Qed.

Lemma never_exits_as_path (o : option string) : never_exits (as_path o).
Proof. by destruct o; intros w status w'. Qed.

Create HintDb exits.
#[global] Hint Resolve quiet_ret quiet_raise quiet_os_path_exists
  quiet_os_path_isfile quiet_subscript0 quiet_as_path quiet_report
  never_exits_ret never_exits_raise never_exits_Image_open
  never_exits_from_option never_exits_Image_save never_exits_print
  never_exits_as_path : exits.
#[global] Hint Extern 2 (quiet (_ ≫= _)) =>
  apply quiet_bind; [|intros ?] : exits.
#[global] Hint Extern 2 (never_exits (_ ≫= _)) =>
  apply never_exits_bind; [|intros ?] : exits.
#[global] Hint Extern 3 (quiet (if ?c then _ else _)) => destruct c : exits.

Lemma quiet_when (c : bool) (body : Run ()) : quiet body → quiet (when c body).
Proof. intros Hb. destruct c; [done|by intros w]. Qed.

Lemma never_exits_hide_image_at (camul secret : string) :
  never_exits (hide_image_at camul secret).
Proof. unfold hide_image_at. auto 10 with exits. Qed.

Lemma never_exits_extract_image_at (camul : string) :
  never_exits (extract_image_at camul).
Proof. unfold extract_image_at. auto 10 with exits. Qed.

#[global] Hint Resolve never_exits_hide_image_at never_exits_extract_image_at
  : exits.

Ltac exit_step :=
  apply exits_cleanly_bind; [solve [auto 10 with exits] | intros ?].

(** X19. Once [parse_args] has returned, every [sys.exit] of [main] comes
    before anything is written: whenever such a run ends in [SystemExit], the
    status is 1, exactly one message starting with [Error: ] has been
    appended to stderr, no file has been changed and nothing has been
    printed. *)
Theorem main_exits_cleanly (args : Namespace) (w w' : World) (status : Z) :
  main args w = (inl (SystemExit status), w') → clean_exit w w' status.
Proof.
  revert w status w'. change (exits_cleanly (main args)).
  unfold main. cbv zeta.
  apply exits_cleanly_bind; [case_bool_decide; auto with exits|intros s].
  apply exits_cleanly_bind; [apply (quiet_report _ "invalid method")|intros _].
  apply exits_cleanly_bind;
    [apply (quiet_report _ "Method hide requires secret to be provided")
    |intros _].
  do 3 exit_step.
  apply exits_cleanly_bind; [apply quiet_when; auto 10 with exits|intros _].
  apply exits_cleanly_bind;
    [destruct (output args); auto 10 with exits|intros _].
  apply never_exits_cleanly.
  apply never_exits_bind; [|auto with exits].
  case_bool_decide; auto 10 with exits.
Qed.

Lemma main_exits_cleanly_witness :
  clean_exit sample_world
    (with_stderr sample_world "Error: extracted.png already exists") 1.
Proof.
  apply (main_exits_cleanly
           (mkNamespace "extract" "enc.png" None (Some "extracted.png"%string))).
  vm_compute. reflexivity.
Defined.

Lemma main_invalid_method_witness :
  main (mkNamespace "reveal" "enc.png" None (Some "extracted.png"%string))
       sample_world =
  (inl (SystemExit 1), with_stderr sample_world "Error: invalid method").
Proof.
  refine (main_invalid_method
            (mkNamespace "reveal" "enc.png" None (Some "extracted.png"%string))
            sample_world _ _);
    intros H; vm_compute in H; discriminate H.
Defined.

(** X21. [truncate_rightmost_2bits] rounds every integer, negative ones too,
    down to a multiple of 4: the result is divisible by 4, at most [v] and
    more than [v - 4]; applying it twice changes nothing. *)
Theorem truncate_rightmost_2bits_floor (v : Z) :
  (truncate_rightmost_2bits v `mod` 4 = 0)%Z ∧
  (v - 3 ≤ truncate_rightmost_2bits v ≤ v)%Z ∧
  truncate_rightmost_2bits (truncate_rightmost_2bits v) =
    truncate_rightmost_2bits v.
Proof.
  rewrite !truncate_div.
  pose proof (Z.div_mod v 4). pose proof (Z.mod_pos_bound v 4).
  split; [|split].
  - rewrite Z.mul_comm. apply Z.mod_mul. lia.
  - lia.
  - f_equal. rewrite Z.mul_comm. apply Z.div_mul. lia.
Qed.

(** ** The script and the missing secret *)

(** C9. Run as a script with method [hide] (in any letter case) and no
    [--secret], the program ends with exit status 1 and an error message on
    stderr, whatever the other arguments and the file system are: the
    message is the traceback of the [TypeError] raised at line 108. *)
Theorem hide_without_secret_exits_1 (args : Namespace) (w : World) :
  lower (method args) = "hide"%string → secret args = None →
  ∃ w' msg,
    run_script args w = (1%Z, w') ∧
    stderr w' = stderr w +:+ msg ∧ msg ≠ ""%string ∧
    files w' = files w ∧ stdout w' = stdout w.
Proof.
  intros Hm Hs. unfold run_script. rewrite main_stops_at_subscript by done.
  exists (with_stderr w (traceback TypeError)), (traceback TypeError).
  by repeat split.
Qed.

Lemma hide_without_secret_exits_1_witness :
  lower "Hide" = "hide"%string ∧
  ∃ w' msg,
    run_script (mkNamespace "Hide" "enc.png" None None) sample_world
      = (1%Z, w') ∧
    stderr w' = stderr sample_world +:+ msg ∧ msg ≠ ""%string ∧
    files w' = files sample_world ∧ stdout w' = stdout sample_world.
Proof.
  split; [reflexivity|].
  exact (hide_without_secret_exits_1
           (mkNamespace "Hide" "enc.png" None None) sample_world
           eq_refl eq_refl).
Defined.

(** ** Runs of [main_with] *)

Lemma bind_cong {A B : Type} (m m' : Run A) (f g : A → Run B) :
  (∀ w, m w = m' w) → (∀ a w, f a w = g a w) →
  ∀ w, (m ≫= f) w = (m' ≫= g) w.
Proof.
  intros Hm Hf w. unfold mbind, Run_bind. rewrite Hm.
  by destruct (m' w) as [[e|a] w1].
Qed.

Lemma not_a_file_model {B : Type} (path : string) (k : bool → Run B)
    (w : World) :
  (not_a_file os_path_exists os_path_isfile path ≫= k) w =
  (path_exists ← os_path_exists path;
   path_isfile ← os_path_isfile path;
   k (negb path_exists || negb path_isfile)) w.
Proof.
  unfold not_a_file, os_path_exists, os_path_isfile, mbind, Run_bind, mret,
    Run_ret.
  by destruct (bool_decide (is_Some (files w !! path))).
Qed.

(** On the model of the file system, [main_with] is [main]. *)
Lemma main_with_model (args : Namespace) (w : World) :
  main_with os_path_exists os_path_isfile Image_open Image_save args w =
  main args w.
Proof.
  unfold main_with, main. cbv zeta. revert w.
  do 3 (apply bind_cong; [done|intros ?]).
  intros w. rewrite not_a_file_model. revert w.
  do 3 (apply bind_cong; [done|intros ?]).
  apply bind_cong; [|done].
  intros w. unfold when. case_bool_decide; [|done]. revert w.
  apply bind_cong; [done|intros s].
  intros w. by rewrite not_a_file_model.
Qed.


Section with_collaborators.
Context (path_exists path_isfile : string → Run bool).
Context (image_open : string → Run Image).
Context (image_save : Image → string → Run ()).

Local Abbreviation not_a_file' := (not_a_file path_exists path_isfile).
Local Abbreviation main' :=
  (main_with path_exists path_isfile image_open image_save).








(** *** The writes of [main_with] *)

Lemma returns_unchanged_ret {A : Type} (a : A) : returns_unchanged (mret a).
Proof. by intros w. Qed.

Lemma returns_unchanged_raise {A : Type} (e : exception) :
  returns_unchanged (@raise A e).
Proof. by intros w. Qed.

Lemma returns_unchanged_bind {A B : Type} (m : Run A) (f : A → Run B) :
  returns_unchanged m → (∀ a, returns_unchanged (f a)) →
  returns_unchanged (m ≫= f).
Proof.
  intros Hm Hf w. unfold mbind, Run_bind. specialize (Hm w).
  destruct (m w) as [[e|a] w1]; [done|]. subst w1. apply Hf.
Qed.

Lemma returns_unchanged_report (c : bool) (msg : string) (status : Z) :
  returns_unchanged (when c (stderr_write msg;; sys_exit status)).
Proof. intros w. by destruct c. Qed.

Lemma returns_unchanged_when (c : bool) (body : Run ()) :
  returns_unchanged body → returns_unchanged (when c body).
Proof. intros Hb. destruct c; [done|by intros w]. Qed.

Lemma returns_unchanged_subscript0 (o : option string) :
  returns_unchanged (subscript0 o).
Proof. by destruct o; intros w. Qed.

Lemma returns_unchanged_as_path (o : option string) :
  returns_unchanged (as_path o).
Proof. by destruct o; intros w. Qed.

Lemma returns_unchanged_from_option {A : Type} (o : option A) :
  returns_unchanged (from_option o).
Proof. by destruct o; intros w. Qed.

Lemma returns_unchanged_query {A : Type} (m : Run A) :
  (∀ w, (m w).2 = w) → returns_unchanged m.
Proof.
  intros Hm w. specialize (Hm w). destruct (m w) as [[e|a] w1]; cbn in Hm;
    by subst.
Qed.

Lemma saves_only_at_unchanged {A : Type} (path : string) (m : Run A) :
  returns_unchanged m → saves_only_at image_save path m.
Proof.
  intros Hm w. left. specialize (Hm w).
  destruct (m w) as [[e|a] w1]; cbn; by subst.
Qed.

Lemma saves_only_at_bind {A B : Type} (path : string) (m : Run A)
    (f : A → Run B) :
  returns_unchanged m → (∀ a, saves_only_at image_save path (f a)) →
  saves_only_at image_save path (m ≫= f).
Proof.
  intros Hm Hf w. unfold mbind, Run_bind. specialize (Hm w).
  destruct (m w) as [[e|a] w1]; [by left|]. subst w1. apply Hf.
Qed.

Lemma saves_only_at_then {A B : Type} (path : string) (m : Run A)
    (f : A → Run B) :
  saves_only_at image_save path m → (∀ a, keeps_files (f a)) →
  saves_only_at image_save path (m ≫= f).
Proof.
  intros Hm Hf w. unfold mbind, Run_bind. specialize (Hm w).
  destruct (m w) as [[e|a] w1]; cbn in *; [done|].
  rewrite (Hf a w1). exact Hm.
Qed.

Lemma saves_only_at_save {B : Type} (path : string) (im : Image)
    (f : () → Run B) :
  (∀ a, keeps_files (f a)) →
  saves_only_at image_save path (image_save im path ≫= f).
Proof.
  intros Hf w. right. exists im. unfold mbind, Run_bind.
  destruct (image_save im path w) as [[e|a] w1]; cbn; [done|].
  apply (Hf a w1).
Qed.

(** X18. [main] writes to the file system through [Image.save] only, at
    most once, and only at the resolved output path: provided
    [os.path.exists], [os.path.isfile] and [Image.open] change nothing, a
    run leaves the files either as they were or as one
    [Image.save(image, resolved output)] made on the initial world leaves
    them, whatever the arguments and however the run ends. *)
Theorem main_saves_only_at_output (args : Namespace) (w : World) :
  (∀ path w, (path_exists path w).2 = w) →
  (∀ path w, (path_isfile path w).2 = w) →
  (∀ path w, (image_open path w).2 = w) →
  files (main' args w).2 = files w ∨
  ∃ im, files (main' args w).2 =
        files (image_save im (resolved_output args) w).2.
Proof.
  intros Qe Qf Qo. revert w.
  change (saves_only_at image_save (resolved_output args) (main' args)).
  assert (∀ path, returns_unchanged (not_a_file' path)) as Hcheck.
  { intros path. unfold not_a_file.
    apply returns_unchanged_bind; [by apply returns_unchanged_query|].
    intros []; cbn [negb]; [|apply returns_unchanged_ret].
    apply returns_unchanged_bind; [by apply returns_unchanged_query|].
    intros ?. apply returns_unchanged_ret. }
  unfold main_with, resolved_output. cbv zeta.
  apply saves_only_at_bind.
  { case_bool_decide; [|apply returns_unchanged_ret].
    apply returns_unchanged_bind; [apply returns_unchanged_subscript0|].
    intros ?. apply returns_unchanged_ret. }
  intros s.
  do 2 (apply saves_only_at_bind; [apply returns_unchanged_report|intros _]).
  apply saves_only_at_bind; [apply Hcheck|intros ?].
  apply saves_only_at_bind; [apply returns_unchanged_report|intros _].
  apply saves_only_at_bind.
  { apply returns_unchanged_when.
    apply returns_unchanged_bind; [apply returns_unchanged_as_path|intros ?].
    apply returns_unchanged_bind; [apply Hcheck|intros ?].
    apply returns_unchanged_report. }
  intros _.
  apply saves_only_at_bind.
  { destruct (output args); [|apply returns_unchanged_ret].
    apply returns_unchanged_bind; [by apply returns_unchanged_query|intros ?].
    apply returns_unchanged_report. }
  intros _.
  apply saves_only_at_then; [|by intros ? ?].
  case_bool_decide.
  - apply saves_only_at_bind; [apply returns_unchanged_as_path|intros ?].
    apply saves_only_at_bind.
    { unfold hide_image_with.
      do 2 (apply returns_unchanged_bind;
            [by apply returns_unchanged_query|intros ?]).
      apply returns_unchanged_from_option. }
    intros data. apply saves_only_at_save. intros ?. apply keeps_files_ret.
  - apply saves_only_at_bind.
    { unfold extract_image_with.
      apply returns_unchanged_bind;
        [by apply returns_unchanged_query|intros ?].
      apply returns_unchanged_from_option. }
    intros data. apply saves_only_at_save. intros ?. apply keeps_files_ret.
Qed.
End with_collaborators.

Lemma queries_change_nothing :
  (∀ path w, (os_path_exists path w).2 = w) ∧
  (∀ path w, (os_path_isfile path w).2 = w) ∧
  (∀ path w, (Image_open path w).2 = w).
Proof.
  split; [|split]; intros path w; [reflexivity|reflexivity|].
  unfold Image_open. destruct (files w !! path) as [[|[im|]]|]; reflexivity.
Defined.




Lemma main_saves_only_at_output_witness :
  files (main_with os_path_exists os_path_isfile Image_open Image_save
           (mkNamespace "extract" "enc.png" None None) sample_world).2
    = files sample_world ∨
  ∃ im,
    files (main_with os_path_exists os_path_isfile Image_open Image_save
             (mkNamespace "extract" "enc.png" None None) sample_world).2
    = files (Image_save im "extracted.png" sample_world).2.
Proof.
  exact (main_saves_only_at_output os_path_exists os_path_isfile Image_open
           Image_save (mkNamespace "extract" "enc.png" None None) sample_world
           (proj1 queries_change_nothing)
           (proj1 (proj2 queries_change_nothing))
           (proj2 (proj2 queries_change_nothing))).
Defined.
